(** * Differential drive odometry and command translation (kobuki_core)

    Shallow embedding of [src/driver/diff_drive.cpp].  C++ [double] is
    IEEE-754 binary64, which is exactly Rocq's primitive [float]; the
    16-bit counters are integers in [Z] with the wrap-around of the source
    written out.  The two mutexes only bracket each member function and
    are not modelled: every function below is one critical section. *)

From Stdlib Require Import ZArith Bool List Lia Uint63 Floats.
Import ListNotations.

Set Warnings "-inexact-float".

Local Open Scope Z_scope.

(** ** Fixed-width integers *)

Module CInt.

Definition USHRT_MAX : Z := 65535.
Definition SHRT_MAX : Z := 32767.
Definition SHRT_MIN : Z := -32768.

(** Range of [uint16_t] / [unsigned short]. *)
Definition is_u16 (x : Z) : Prop := 0 <= x <= USHRT_MAX.

(** Range of [short]. *)
Definition is_i16 (x : Z) : Prop := SHRT_MIN <= x <= SHRT_MAX.

(** [(short) x] for an [int] x: the low 16 bits read as two's complement. *)
Definition short_of_int (x : Z) : Z :=
  let m := x mod 65536 in
  if m <? 32768 then m else m - 65536.

(** [(short)((curr - last) & 0xffff)]: both operands are promoted to
    [int], so the subtraction itself cannot overflow. *)
Definition diff_ticks (curr last : Z) : Z :=
  short_of_int (Z.land (curr - last) 0xffff).

(** The signed 16-bit wrap-around difference, as the specification
    writes it. *)
Definition signed_wrap_diff (prev curr : Z) : Z :=
  (curr - prev + 32768) mod 65536 - 32768.

End CInt.

(** ** Conversions between integers and doubles *)

Module Double.

Local Open Scope float_scope.

(** [(double) n] for a C++ integer of at most 32 bits: exact. *)
Definition of_int (n : Z) : float :=
  if (n <? 0)%Z then - of_uint63 (Uint63.of_Z (- n))
  else of_uint63 (Uint63.of_Z n).

(** The integer part of a finite double, rounded toward zero. *)
Definition trunc (v : float) : option Z :=
  match Prim2SF v with
  | S754_zero _ => Some 0%Z
  | S754_finite s m e => Some (cond_Zopp s (Z.shiftl (Zpos m) e))
  | S754_infinity _ | S754_nan => None
  end.

(** [static_cast<short>(v)]: truncation toward zero; the conversion is
    undefined ([None]) when the truncated value does not fit a [short],
    which includes NaN and the infinities. *)
Definition to_short (v : float) : option Z :=
  match trunc v with
  | Some z =>
      if ((CInt.SHRT_MIN <=? z) && (z <=? CInt.SHRT_MAX))%Z then Some z
      else None
  | None => None
  end.

End Double.

(** ** The tracker *)

Record Vector3d : Set := mkVector3d { vx0 : float; vx1 : float; vx2 : float }.

(** Members of [DiffDrive].  The class is declared in [diff_drive.hpp];
    the tick and timestamp members are [unsigned short] like the locals
    they are assigned from, every other scalar member is a [double]. *)
Record DiffDrive : Set := mkDiffDrive {
  last_timestamp : Z;            (* unsigned short *)
  last_velocity_left : float;
  last_velocity_right : float;
  last_diff_time : float;
  last_tick_left : Z;            (* unsigned short *)
  last_tick_right : Z;           (* unsigned short *)
  last_rad_left : float;
  last_rad_right : float;
  point_velocity : list float;   (* [m/s, rad/s] *)
  radius : float;                (* [mm] *)
  speed : float;                 (* [mm/s] *)
  bias : float;                  (* [m] *)
  wheel_radius : float;          (* [m] *)
  tick_to_rad : float
}.

(** The function-local [static bool init_l, init_r] of [update]: one pair
    for the whole program, whatever the number of [DiffDrive] objects. *)
Record Statics : Set := mkStatics { init_l : bool; init_r : bool }.

Definition program_start : Statics := mkStatics false false.

Local Open Scope float_scope.

(** [0.00071674029f]: the literal is single precision, so the member holds
    the nearest binary32 value, widened. *)
Definition tick_to_rad_literal : float := 0x1.77c74p-11.

(** [DiffDrive::DiffDrive()].  The initialiser list names neither
    [last_timestamp] nor [last_diff_time]; their indeterminate initial
    contents are the two arguments. *)
Definition DiffDrive_ctor (indet_timestamp : Z) (indet_diff_time : float)
  : DiffDrive :=
  {| last_timestamp := indet_timestamp;
     last_velocity_left := 0.0;
     last_velocity_right := 0.0;
     last_diff_time := indet_diff_time;
     last_tick_left := 0;
     last_tick_right := 0;
     last_rad_left := 0.0;
     last_rad_right := 0.0;
     point_velocity := [0.0; 0.0];
     radius := 0.0;
     speed := 0.0;
     bias := 0.485;
     wheel_radius := 0.205;
     tick_to_rad := tick_to_rad_literal |}.

(** Result of one call of [update]: the statics and the object after the
    call, and the two output vectors. *)
Record UpdateResult : Set := mkUpdateResult {
  statics' : Statics;
  drive' : DiffDrive;
  pose_update : Vector3d;
  pose_update_rates : Vector3d
}.

Section Odometry.

(** [diff_drive_kinematics.poseUpdateFromWheelDifferential], the
    kinematics primitive of the ecl library, built from
    [(bias, wheel_radius)]; it is external to this unit. *)
Variable poseUpdateFromWheelDifferential :
  float (* bias *) -> float (* wheel radius *) ->
  float (* dleft *) -> float (* dright *) -> Vector3d.

(** [DiffDrive::update]. *)
Definition update (g : Statics) (d : DiffDrive)
    (time_stamp left_encoder right_encoder : Z) : UpdateResult :=
  let curr_timestamp := time_stamp in
  let curr_tick_left := left_encoder in
  (* if (!init_l) { last_tick_left = curr_tick_left; init_l = true; } *)
  let tick_left0 := if init_l g then last_tick_left d else curr_tick_left in
  let left_diff_ticks :=
    Double.of_int (CInt.diff_ticks curr_tick_left tick_left0) in
  let rad_left := last_rad_left d + tick_to_rad d * left_diff_ticks in
  let curr_tick_right := right_encoder in
  let tick_right0 :=
    if init_r g then last_tick_right d else curr_tick_right in
  let right_diff_ticks :=
    Double.of_int (CInt.diff_ticks curr_tick_right tick_right0) in
  let rad_right := last_rad_right d + tick_to_rad d * right_diff_ticks in
  let pu :=
    poseUpdateFromWheelDifferential (bias d) (wheel_radius d)
      (tick_to_rad d * left_diff_ticks)
      (tick_to_rad d * right_diff_ticks) in
  let '(ts, dt, vl, vr) :=
    if negb (curr_timestamp =? last_timestamp d)%Z then
      let dt :=
        Double.of_int (CInt.diff_ticks curr_timestamp (last_timestamp d))
        / 1000.0 in
      (curr_timestamp, dt,
       (tick_to_rad d * left_diff_ticks) / dt,
       (tick_to_rad d * right_diff_ticks) / dt)
    else
      (last_timestamp d, last_diff_time d,
       last_velocity_left d, last_velocity_right d) in
  {| statics' := mkStatics true true;
     drive' :=
       {| last_timestamp := ts;
          last_velocity_left := vl;
          last_velocity_right := vr;
          last_diff_time := dt;
          last_tick_left := curr_tick_left;
          last_tick_right := curr_tick_right;
          last_rad_left := rad_left;
          last_rad_right := rad_right;
          point_velocity := point_velocity d;
          radius := radius d;
          speed := speed d;
          bias := bias d;
          wheel_radius := wheel_radius d;
          tick_to_rad := tick_to_rad d |};
     pose_update := pu;
     pose_update_rates :=
       mkVector3d (vx0 pu / dt) (vx1 pu / dt) (vx2 pu / dt) |}.

End Odometry.

(** [DiffDrive::reset]. *)
Definition reset (d : DiffDrive) : DiffDrive :=
  {| last_timestamp := last_timestamp d;
     last_velocity_left := 0.0;
     last_velocity_right := 0.0;
     last_diff_time := last_diff_time d;
     last_tick_left := last_tick_left d;
     last_tick_right := last_tick_right d;
     last_rad_left := 0.0;
     last_rad_right := 0.0;
     point_velocity := point_velocity d;
     radius := radius d;
     speed := speed d;
     bias := bias d;
     wheel_radius := wheel_radius d;
     tick_to_rad := tick_to_rad d |}.

(** [DiffDrive::getWheelJointStates]: the four out-parameters, in the
    order of the signature. *)
Record WheelJointStates : Set := mkWheelJointStates {
  wheel_left_angle : float;
  wheel_left_angle_rate : float;
  wheel_right_angle : float;
  wheel_right_angle_rate : float
}.

Definition getWheelJointStates (d : DiffDrive) : WheelJointStates :=
  {| wheel_left_angle := last_rad_left d;
     wheel_left_angle_rate := last_velocity_left d;
     wheel_right_angle := last_rad_right d;
     wheel_right_angle_rate := last_velocity_right d |}.

(** ** Velocity commands *)

(** Overwrites the stored firmware command. *)
Definition set_command (d : DiffDrive) (new_speed new_radius : float)
  : DiffDrive :=
  {| last_timestamp := last_timestamp d;
     last_velocity_left := last_velocity_left d;
     last_velocity_right := last_velocity_right d;
     last_diff_time := last_diff_time d;
     last_tick_left := last_tick_left d;
     last_tick_right := last_tick_right d;
     last_rad_left := last_rad_left d;
     last_rad_right := last_rad_right d;
     point_velocity := point_velocity d;
     radius := new_radius;
     speed := new_speed;
     bias := bias d;
     wheel_radius := wheel_radius d;
     tick_to_rad := tick_to_rad d |}.

(** [DiffDrive::setVelocityCommands]. *)
Definition setVelocityCommands (d : DiffDrive) (vx wz : float) : DiffDrive :=
  {| last_timestamp := last_timestamp d;
     last_velocity_left := last_velocity_left d;
     last_velocity_right := last_velocity_right d;
     last_diff_time := last_diff_time d;
     last_tick_left := last_tick_left d;
     last_tick_right := last_tick_right d;
     last_rad_left := last_rad_left d;
     last_rad_right := last_rad_right d;
     point_velocity := [vx; wz];
     radius := radius d;
     speed := speed d;
     bias := bias d;
     wheel_radius := wheel_radius d;
     tick_to_rad := tick_to_rad d |}.

(** [DiffDrive::pointVelocity]. *)
Definition pointVelocity (d : DiffDrive) : list float := point_velocity d.

Definition epsilon : float := 0.0001.

(** The line written to [std::cout]: the speed and the radius printed. *)
Definition Printed : Set := (float * float)%type.

(** The dead-zone rewrite of [vx_] at the top of the translator. *)
Definition dead_zone (vx : float) : float :=
  if abs vx <? 0.1 then 0.0 else vx.

(** The minimum-speed rewrite inside the pivot branch. *)
Definition min_speed (s : float) : float :=
  if abs s <? 50.0 then (if 0.0 <? s then 50.0 else -50.0) else s.

(** [DiffDrive::velocityCommands(const double &vx, const double &wz)]. *)
Definition velocityCommands (d : DiffDrive) (vx wz : float)
  : DiffDrive * Printed :=
  let vx_ := dead_zone vx in
  if abs wz <? epsilon then
    let radius1 := 0.0 in
    let speed1 := 1000.0 * vx_ in
    (set_command d speed1 radius1, (speed1, radius1))
  else
    let radius1 := vx_ * 1000.0 / wz in
    if (abs vx_ <? epsilon) || (abs radius1 <=? 1.0) then
      let speed1 := min_speed (1000.0 * bias d * wz / 2.0) in
      let radius2 := 1.0 in
      (set_command d speed1 radius2, (speed1, radius2))
    else
      let speed1 :=
        if 0.0 <? radius1 then (radius1 + 1000.0 * bias d / 2.0) * wz
        else (radius1 - 1000.0 * bias d / 2.0) * wz in
      (set_command d speed1 radius1, (speed1, radius1)).

(** [DiffDrive::velocityCommands(const short &cmd_speed,
    const short &cmd_radius)]. *)
Definition velocityCommands_raw (d : DiffDrive) (cmd_speed cmd_radius : Z)
  : DiffDrive :=
  set_command d (Double.of_int cmd_speed) (Double.of_int cmd_radius).

(** [DiffDrive::bound]. *)
Definition bound (value : float) : option Z :=
  if Double.of_int CInt.SHRT_MAX <? value then Some CInt.SHRT_MAX
  else if value <? Double.of_int CInt.SHRT_MIN then Some CInt.SHRT_MIN
  else Double.to_short value.

(** [DiffDrive::velocityCommands()]: the two-element vector
    [(bound(speed), bound(radius))]; undefined as soon as one of the two
    conversions is. *)
Definition velocityCommands_get (d : DiffDrive) : option (Z * Z) :=
  match bound (speed d), bound (radius d) with
  | Some s, Some r => Some (s, r)
  | _, _ => None
  end.

(** The ecl kinematics the constructor instantiates, for the concrete
    evaluations below: forward displacement from the mean wheel travel,
    no lateral motion, heading change from the difference. *)
Definition ecl_poseUpdate (bias0 radius0 dleft dright : float) : Vector3d :=
  let ds := radius0 * (dleft + dright) / 2.0 in
  let domega := radius0 * (dright - dleft) / bias0 in
  mkVector3d ds 0.0 domega.

(** ** Auxiliary definitions for the statements *)

Fixpoint all_from (n : nat) (lo : Z) (P : Z -> bool) : bool :=
  match n with
  | O => true
  | S k => P lo && all_from k (lo + 1)%Z P
  end.

(** Every [short]. *)
Definition all_i16 (P : Z -> bool) : bool :=
  all_from (Z.to_nat 65536) CInt.SHRT_MIN P.

(** A double that can safely divide: neither zero, nor infinite, nor
    NaN. *)
Definition proper_divisor (x : float) : bool :=
  negb (is_zero x) && negb (is_nan x) && negb (is_infinity x).

Definition elapsed_ok (z : Z) : bool :=
  (z =? 0)%Z || proper_divisor (Double.of_int z / 1000.0).

(** The baseline a wheel's tick is compared with: the stored tick once
    the wheel's static flag is set, the current tick itself before. *)
Definition baseline (seeded : bool) (stored curr : Z) : Z :=
  if seeded then stored else curr.

(** What one component of the raw command reads back as. *)
Definition roundtrip_ok (z : Z) : bool :=
  match bound (Double.of_int z) with
  | Some z' => (z' =? z)%Z
  | None => false
  end.

(** The guard C3 asks for, at one call: a zero elapsed time produces no
    NaN pose rate. *)
Definition rates_guarded (g : Statics) (d : DiffDrive) (ts l r : Z) : Prop :=
  let res := update ecl_poseUpdate g d ts l r in
  is_zero (last_diff_time (drive' res)) = true ->
  is_nan (vx0 (pose_update_rates res)) = false /\
  is_nan (vx1 (pose_update_rates res)) = false /\
  is_nan (vx2 (pose_update_rates res)) = false.

(** The part of an object the odometry functions work on (the group the
    state mutex guards), with the construction-time parameters. *)
Definition odometry_state (d : DiffDrive) :=
  (last_timestamp d, last_diff_time d, last_tick_left d, last_tick_right d,
   (last_rad_left d, last_rad_right d,
    last_velocity_left d, last_velocity_right d),
   (bias d, wheel_radius d, tick_to_rad d)).

(** The part the command functions work on (the group the velocity mutex
    guards, and the telemetry pair). *)
Definition command_state (d : DiffDrive) :=
  (speed d, radius d, point_velocity d).

(** The elapsed time of a timestamp step [z]: within the span of the
    16-bit millisecond counter, and negative exactly when the step is. *)
Definition elapsed_bounds_ok (z : Z) : bool :=
  (z =? 0)%Z ||
  (let dt := Double.of_int z / 1000.0 in
   (-32.768 <=? dt) && (dt <=? 32.767)
   && Bool.eqb (dt <? 0.0) (z <? 0)%Z).

(** A binary64 datum that is an infinity or a non-zero number of sign
    [s] ([true] for negative). *)
Definition signed_nonzero (w : spec_float) (s : bool) : Prop :=
  w = S754_infinity s \/ exists m e, w = S754_finite s m e.

(** What C7 says of a double that passes neither saturation test:
    [bound] returns a 16-bit signed integer. *)
Definition bound_returns_short (v : float) : Prop :=
  exists z : Z, bound v = Some z /\ CInt.is_i16 z.

(** [(double) k] is the number [k]: a zero for 0, and otherwise a
    mantissa and a non-positive exponent with [m * 2 ^ e = |k|] and the
    sign of [k]. *)
Definition exact_int (k : Z) : bool :=
  match Prim2SF (Double.of_int k) with
  | S754_zero s => (k =? 0)%Z && negb s
  | S754_finite s m e =>
      (e <=? 0)%Z && (Zpos m =? Z.abs k * 2 ^ (- e))%Z
      && Bool.eqb s (k <? 0)%Z
  | S754_infinity _ | S754_nan => false
  end.

(** Every integer from -32769 to 32768: the [short] range and one
    beyond on each side. *)
Definition all_near_i16 (P : Z -> bool) : bool :=
  all_from (Z.to_nat 65538) (-32769) P.

Ltac u16 := unfold CInt.is_u16, CInt.USHRT_MAX; lia.

Ltac i16 := unfold CInt.is_i16, CInt.SHRT_MIN, CInt.SHRT_MAX; lia.

(** ** Facts about binary64 comparison and arithmetic

    Obtained from the specification of the primitive operations over
    [spec_float]. *)

Module FloatFacts.

Lemma SFcompare_antisym (x y : spec_float) :
  SFcompare y x = option_map CompOpp (SFcompare x y).
Proof.
  destruct x as [sx|sx| |sx mx ex], y as [sy|sy| |sy my ey]; simpl;
    try reflexivity;
    try (destruct sx; reflexivity);
    try (destruct sy; reflexivity);
    try (destruct sx, sy; reflexivity).
  pose proof (Pos.compare_cont_antisym mx my Eq) as Hm; simpl in Hm.
  destruct sx, sy; simpl; try reflexivity;
    rewrite (Z.compare_antisym ey ex);
    destruct (ey ?= ex)%Z; simpl; try reflexivity;
    rewrite <- Hm; try rewrite CompOpp_involutive; reflexivity.
Qed.

Lemma ltb_asym (x y : float) : (x <? y) = true -> (y <? x) = false.
Proof.
  rewrite !ltb_spec. unfold SFltb.
  rewrite (SFcompare_antisym (Prim2SF x) (Prim2SF y)).
  destruct (SFcompare (Prim2SF x) (Prim2SF y)) as [[]|]; simpl; congruence.
Qed.

Lemma leb_not_ltb (x y : float) : (x <=? y) = true -> (y <? x) = false.
Proof.
  rewrite ltb_spec, leb_spec. unfold SFltb, SFleb.
  rewrite (SFcompare_antisym (Prim2SF x) (Prim2SF y)).
  destruct (SFcompare (Prim2SF x) (Prim2SF y)) as [[]|]; simpl; congruence.
Qed.

Lemma ltb_not_leb (x y : float) : (x <? y) = true -> (y <=? x) = false.
Proof.
  rewrite ltb_spec, leb_spec. unfold SFltb, SFleb.
  rewrite (SFcompare_antisym (Prim2SF x) (Prim2SF y)).
  destruct (SFcompare (Prim2SF x) (Prim2SF y)) as [[]|]; simpl; congruence.
Qed.

Lemma SFmul_comm (x y : spec_float) : SF64mul x y = SF64mul y x.
Proof.
  unfold SF64mul, SFmul.
  destruct x as [sx|sx| |sx mx ex], y as [sy|sy| |sy my ey];
    try reflexivity; rewrite ?(xorb_comm sx sy); try reflexivity.
  now rewrite (Pos.mul_comm mx my), (Z.add_comm ex ey).
Qed.

Lemma mul_comm (x y : float) : x * y = y * x.
Proof.
  apply Prim2SF_inj. rewrite !mul_spec. apply SFmul_comm.
Qed.

End FloatFacts.

(** ** Range of the truncation behind [bound] *)

Module TruncFacts.

Local Open Scope Z_scope.

Lemma digits2_pos_bound (m : positive) :
  Zpos m < 2 ^ Zpos (digits2_pos m).
Proof.
  induction m as [p IH|p IH|]; simpl digits2_pos;
    rewrite ?Pos2Z.inj_succ, ?Z.pow_succ_r by lia; lia.
Qed.

(** A valid binary64 mantissa has at most 53 bits. *)
Lemma valid_mantissa_bound (s : bool) (m : positive) (e : Z) :
  valid_binary (S754_finite s m e) = true -> Zpos m < 2 ^ 53.
Proof.
  unfold valid_binary, bounded, canonical_mantissa, fexp, SpecFloat.emin.
  intros H. apply andb_prop in H as [H _]. apply Z.eqb_eq in H.
  pose proof (digits2_pos_bound m) as Hd.
  assert (Hle : Zpos (digits2_pos m) <= 53) by (unfold prec, emax in H; lia).
  apply Z.lt_le_trans with (1 := Hd).
  apply Z.pow_le_mono_r; lia.
Qed.

Lemma shiftl_neg_bounds (m : positive) (e k b : Z) :
  0 <= k -> e <= - k -> Zpos m < 2 ^ k * b ->
  0 <= Z.shiftl (Zpos m) e < b.
Proof.
  intros Hk He Hm.
  replace e with (- (- e)) by lia.
  rewrite Z.shiftl_opp_r, Z.shiftr_div_pow2 by lia.
  assert (Hp : 2 ^ k <= 2 ^ (- e)) by (apply Z.pow_le_mono_r; lia).
  assert (H0 : 0 < 2 ^ k) by (apply Z.pow_pos_nonneg; lia).
  split.
  - apply Z.div_pos; lia.
  - apply Z.div_lt_upper_bound; nia.
Qed.

End TruncFacts.

Module BoundFacts.

Import TruncFacts.

Lemma SHRT_MAX_double :
  Prim2SF (Double.of_int CInt.SHRT_MAX)
  = S754_finite false 9006924376834048 (-38).
Proof. vm_compute. reflexivity. Qed.

Lemma SHRT_MIN_double :
  Prim2SF (Double.of_int CInt.SHRT_MIN)
  = S754_finite true 4503599627370496 (-37).
Proof. vm_compute. reflexivity. Qed.

Lemma is_nan_false (v : float) :
  is_nan v = false -> Prim2SF v <> S754_nan.
Proof.
  unfold is_nan. rewrite eqb_spec. unfold SFeqb.
  intros H E. rewrite E in H. discriminate.
Qed.

Lemma compare_cont_not_gt (m c : positive) :
  match CompOpp (PosDef.Pos.compare_cont Eq m c) with
  | Lt => true | _ => false end = false ->
  (Zpos m <= Zpos c)%Z.
Proof.
  change (PosDef.Pos.compare_cont Eq m c) with (Pos.compare m c).
  destruct (Pos.compare_spec m c) as [Hc|Hc|Hc]; simpl; intros H;
    try discriminate; lia.
Qed.

Lemma compare_cont_not_lt (m c : positive) :
  match PosDef.Pos.compare_cont Eq c m with
  | Lt => true | _ => false end = false ->
  (Zpos m <= Zpos c)%Z.
Proof.
  change (PosDef.Pos.compare_cont Eq c m) with (Pos.compare c m).
  destruct (Pos.compare_spec c m) as [Hc|Hc|Hc]; simpl; intros H;
    try discriminate; lia.
Qed.

(** Between the two saturation tests, the integer part of a number fits
    a [short]. *)
Lemma trunc_in_range (v : float) :
  is_nan v = false ->
  (Double.of_int CInt.SHRT_MAX <? v) = false ->
  (v <? Double.of_int CInt.SHRT_MIN) = false ->
  exists z, Double.trunc v = Some z /\ CInt.is_i16 z.
Proof.
  intros Hnan Hhi Hlo.
  apply is_nan_false in Hnan.
  rewrite ltb_spec, SHRT_MAX_double in Hhi.
  rewrite ltb_spec, SHRT_MIN_double in Hlo.
  pose proof (Prim2SF_valid v) as Hv.
  unfold Double.trunc, CInt.is_i16, CInt.SHRT_MIN, CInt.SHRT_MAX.
  destruct (Prim2SF v) as [s|s| |s m e].
  - exists 0%Z. split; [reflexivity | lia].
  - destruct s; discriminate.
  - congruence.
  - apply valid_mantissa_bound in Hv.
    eexists; split; [reflexivity|].
    unfold SFltb, SFcompare in Hhi, Hlo.
    destruct s; simpl cond_Zopp.
    + destruct (Z.compare_spec e (-37)) as [He|He|He]; try discriminate.
      * subst e. apply compare_cont_not_gt in Hlo.
        pose proof (shiftl_neg_bounds m (-37) 37 32769) as Hb. lia.
      * pose proof (shiftl_neg_bounds m e 38 32768) as Hb. lia.
    + destruct (Z.compare_spec (-38) e) as [He|He|He]; try discriminate.
      * subst e. apply compare_cont_not_lt in Hhi.
        pose proof (shiftl_neg_bounds m (-38) 38 32768) as Hb. lia.
      * pose proof (shiftl_neg_bounds m e 39 16384) as Hb. lia.
Qed.

End BoundFacts.

(** ** Integer wrap-around *)

Module CIntFacts.

Import CInt.
Local Open Scope Z_scope.

Lemma short_of_int_signed (x : Z) :
  short_of_int x = (x + 32768) mod 65536 - 32768.
Proof.
  unfold short_of_int.
  destruct (Z.ltb_spec (x mod 65536) 32768) as [H|H];
    Z.div_mod_to_equations; lia.
Qed.

Lemma land_0xffff (x : Z) : Z.land x 0xffff = x mod 65536.
Proof. exact (Z.land_ones x 16 ltac:(lia)). Qed.

(** The source expression is the signed wrap-around difference. *)
Lemma diff_ticks_signed_wrap (curr prev : Z) :
  diff_ticks curr prev = signed_wrap_diff prev curr.
Proof.
  unfold diff_ticks, signed_wrap_diff.
  rewrite short_of_int_signed, land_0xffff.
  Z.div_mod_to_equations; lia.
Qed.

Lemma diff_ticks_same (c : Z) : diff_ticks c c = 0.
Proof.
  unfold diff_ticks. rewrite Z.sub_diag, Z.land_0_l. reflexivity.
Qed.

Lemma signed_wrap_diff_range (prev curr : Z) :
  is_i16 (signed_wrap_diff prev curr).
Proof.
  unfold is_i16, signed_wrap_diff, SHRT_MIN, SHRT_MAX.
  Z.div_mod_to_equations; lia.
Qed.

(** Two distinct 16-bit samples never have a zero wrapped difference. *)
Lemma signed_wrap_diff_nonzero (prev curr : Z) :
  is_u16 prev -> is_u16 curr -> curr <> prev ->
  signed_wrap_diff prev curr <> 0.
Proof.
  unfold is_u16, USHRT_MAX, signed_wrap_diff. intros Hp Hc Hne.
  Z.div_mod_to_equations; lia.
Qed.

End CIntFacts.

(** ** Checking a property on every value of an integer interval *)

Lemma all_from_spec (n : nat) (lo : Z) (P : Z -> bool) :
  all_from n lo P = true ->
  forall z, (lo <= z < lo + Z.of_nat n)%Z -> P z = true.
Proof.
  revert lo. induction n as [|k IH]; intros lo H z Hz.
  - simpl in Hz. lia.
  - cbn [all_from] in H. apply andb_prop in H as [H0 Hk].
    destruct (Z.eq_dec z lo) as [->|Hne]; [exact H0|].
    apply (IH (lo + 1)%Z Hk). lia.
Qed.

Lemma all_i16_spec (P : Z -> bool) :
  all_i16 P = true -> forall z, CInt.is_i16 z -> P z = true.
Proof.
  unfold all_i16, CInt.is_i16, CInt.SHRT_MIN, CInt.SHRT_MAX.
  intros H z Hz. apply (all_from_spec _ _ _ H). lia.
Qed.

(** ** Elapsed time *)

Module TimeFacts.

Lemma elapsed_ok_all : all_i16 elapsed_ok = true.
Proof. vm_compute. reflexivity. Qed.

(** The elapsed time computed from two distinct timestamps. *)
Lemma elapsed_time_proper (prev curr : Z) :
  CInt.is_u16 prev -> CInt.is_u16 curr -> curr <> prev ->
  proper_divisor (Double.of_int (CInt.diff_ticks curr prev) / 1000.0) = true.
Proof.
  intros Hp Hc Hne.
  rewrite CIntFacts.diff_ticks_signed_wrap.
  pose proof (CIntFacts.signed_wrap_diff_nonzero prev curr Hp Hc Hne) as Hnz.
  pose proof (all_i16_spec _ elapsed_ok_all _
                (CIntFacts.signed_wrap_diff_range prev curr)) as H.
  unfold elapsed_ok in H. apply orb_prop in H as [H|H]; [|exact H].
  apply Z.eqb_eq in H. contradiction.
Qed.

(** Dividing by a zero yields an infinity or NaN, never a number. *)
Lemma div_zero_improper (x dt : float) :
  is_zero dt = true ->
  is_nan (x / dt) || is_infinity (x / dt) = true.
Proof.
  unfold is_zero, is_nan, is_infinity.
  rewrite !eqb_spec, abs_spec, div_spec.
  change (Prim2SF zero) with (S754_zero false).
  change (Prim2SF infinity) with (S754_infinity false).
  destruct (Prim2SF dt) as [s|s| |s m e]; try discriminate;
    try (destruct s; discriminate).
  intros _.
  destruct (Prim2SF x) as [sx|sx| |sx mx ex]; try reflexivity;
    destruct sx, s; reflexivity.
Qed.

End TimeFacts.

(** ** Odometry *)

Section OdometryFacts.

Variable kinematics : float -> float -> float -> float -> Vector3d.

Lemma update_ticks (g : Statics) (d : DiffDrive) (ts l r : Z) :
  let res := update kinematics g d ts l r in
  let dl :=
    Double.of_int (CInt.diff_ticks l (baseline (init_l g) (last_tick_left d) l)) in
  let dr :=
    Double.of_int (CInt.diff_ticks r (baseline (init_r g) (last_tick_right d) r)) in
  last_rad_left (drive' res) = last_rad_left d + tick_to_rad d * dl /\
  last_rad_right (drive' res) = last_rad_right d + tick_to_rad d * dr /\
  pose_update res =
    kinematics (bias d) (wheel_radius d)
      (tick_to_rad d * dl) (tick_to_rad d * dr) /\
  last_tick_left (drive' res) = l /\
  last_tick_right (drive' res) = r.
Proof.
  unfold update, baseline.
  destruct (negb (ts =? last_timestamp d)%Z); cbn; auto.
Qed.

Lemma update_new_timestamp (g : Statics) (d : DiffDrive) (ts l r : Z) :
  ts <> last_timestamp d ->
  let res := update kinematics g d ts l r in
  last_timestamp (drive' res) = ts /\
  last_diff_time (drive' res) =
    Double.of_int (CInt.diff_ticks ts (last_timestamp d)) / 1000.0.
Proof.
  intros Hne. unfold update.
  destruct (Z.eqb_spec ts (last_timestamp d)) as [E|_]; [contradiction|].
  cbn. auto.
Qed.

Lemma update_same_timestamp (g : Statics) (d : DiffDrive) (ts l r : Z) :
  ts = last_timestamp d ->
  let res := update kinematics g d ts l r in
  last_timestamp (drive' res) = last_timestamp d /\
  last_diff_time (drive' res) = last_diff_time d /\
  last_velocity_left (drive' res) = last_velocity_left d /\
  last_velocity_right (drive' res) = last_velocity_right d.
Proof.
  intros E. unfold update. rewrite E, Z.eqb_refl. cbn. auto.
Qed.

Lemma update_rates (g : Statics) (d : DiffDrive) (ts l r : Z) :
  let res := update kinematics g d ts l r in
  let dt := last_diff_time (drive' res) in
  pose_update_rates res =
    mkVector3d (vx0 (pose_update res) / dt) (vx1 (pose_update res) / dt)
      (vx2 (pose_update res) / dt).
Proof.
  unfold update.
  destruct (negb (ts =? last_timestamp d)%Z); cbn; reflexivity.
Qed.

(** C1: for 16-bit samples, every delta [update] computes is the signed
    16-bit wrap-around difference [((curr - prev + 32768) mod 65536) -
    32768] of its own pair (prev, curr): the left tick, the right tick,
    each against its baseline, and the timestamp against the stored one
    whenever the elapsed time is computed. *)
Theorem update_deltas_signed_wraparound
    (g : Statics) (d : DiffDrive) (ts l r : Z) :
  CInt.is_u16 ts -> CInt.is_u16 l -> CInt.is_u16 r ->
  CInt.is_u16 (last_timestamp d) ->
  CInt.is_u16 (last_tick_left d) -> CInt.is_u16 (last_tick_right d) ->
  let res := update kinematics g d ts l r in
  let dl :=
    CInt.signed_wrap_diff (baseline (init_l g) (last_tick_left d) l) l in
  let dr :=
    CInt.signed_wrap_diff (baseline (init_r g) (last_tick_right d) r) r in
  let dts := CInt.signed_wrap_diff (last_timestamp d) ts in
  (forall prev curr, CInt.is_u16 prev -> CInt.is_u16 curr ->
     CInt.diff_ticks curr prev = CInt.signed_wrap_diff prev curr) /\
  last_rad_left (drive' res)
    = last_rad_left d + tick_to_rad d * Double.of_int dl /\
  last_rad_right (drive' res)
    = last_rad_right d + tick_to_rad d * Double.of_int dr /\
  pose_update res
    = kinematics (bias d) (wheel_radius d)
        (tick_to_rad d * Double.of_int dl)
        (tick_to_rad d * Double.of_int dr) /\
  (ts <> last_timestamp d ->
   last_diff_time (drive' res) = Double.of_int dts / 1000.0).
Proof.
  intros _ _ _ _ _ _ res dl dr dts. subst res dl dr dts.
  destruct (update_ticks g d ts l r) as (Hl & Hr & Hp & _).
  repeat rewrite CIntFacts.diff_ticks_signed_wrap in Hl.
  repeat rewrite CIntFacts.diff_ticks_signed_wrap in Hr.
  repeat rewrite CIntFacts.diff_ticks_signed_wrap in Hp.
  split; [|split; [exact Hl|split; [exact Hr|split; [exact Hp|]]]].
  - intros prev curr _ _. apply CIntFacts.diff_ticks_signed_wrap.
  - intros Hne.
    destruct (update_new_timestamp g d ts l r Hne) as [_ Hdt].
    rewrite CIntFacts.diff_ticks_signed_wrap in Hdt. exact Hdt.
Qed.

(** Before any call of [update] in the program, both wheels are seeded:
    the tick deltas are zero and the supplied ticks become the
    baselines. *)
Lemma update_seeds_at_program_start (d : DiffDrive) (ts l r : Z) :
  let res := update kinematics program_start d ts l r in
  last_tick_left (drive' res) = l /\
  last_tick_right (drive' res) = r /\
  last_rad_left (drive' res) = last_rad_left d + tick_to_rad d * 0.0 /\
  last_rad_right (drive' res) = last_rad_right d + tick_to_rad d * 0.0 /\
  pose_update res =
    kinematics (bias d) (wheel_radius d)
      (tick_to_rad d * 0.0) (tick_to_rad d * 0.0) /\
  statics' res = mkStatics true true.
Proof.
  destruct (update_ticks program_start d ts l r) as (Hl & Hr & Hp & Hbl & Hbr).
  unfold baseline in *. cbn [program_start init_l init_r] in *.
  repeat rewrite CIntFacts.diff_ticks_same in Hl.
  repeat rewrite CIntFacts.diff_ticks_same in Hr.
  repeat rewrite CIntFacts.diff_ticks_same in Hp.
  change (Double.of_int 0) with 0.0 in Hl, Hr, Hp.
  repeat split; try assumption.
  unfold update. destruct (negb (ts =? last_timestamp d)%Z); reflexivity.
Qed.

(** C3 (as the code has it): the pose delta is divided element-wise by
    the stored elapsed time without any guard.  When the timestamp
    differs from the stored one the divisor is the freshly computed
    elapsed time, which is never zero; when it coincides the divisor is
    the elapsed time stored before the call; and whenever that divisor
    is zero every pose-rate component is NaN or infinite. *)
Theorem update_rates_divide_unguarded
    (g : Statics) (d : DiffDrive) (ts l r : Z) :
  CInt.is_u16 ts -> CInt.is_u16 (last_timestamp d) ->
  let res := update kinematics g d ts l r in
  let dt := last_diff_time (drive' res) in
  let improper (x : float) := is_nan x || is_infinity x in
  pose_update_rates res =
    mkVector3d (vx0 (pose_update res) / dt) (vx1 (pose_update res) / dt)
      (vx2 (pose_update res) / dt) /\
  (ts <> last_timestamp d ->
   dt = Double.of_int (CInt.signed_wrap_diff (last_timestamp d) ts) / 1000.0
   /\ proper_divisor dt = true) /\
  (ts = last_timestamp d -> dt = last_diff_time d) /\
  (is_zero dt = true ->
   improper (vx0 (pose_update_rates res)) = true /\
   improper (vx1 (pose_update_rates res)) = true /\
   improper (vx2 (pose_update_rates res)) = true).
Proof.
  intros Hts Hlast res dt improper. subst res dt improper.
  pose proof (update_rates g d ts l r) as Hr. cbv zeta in Hr.
  split; [exact Hr|]. split; [|split].
  - intros Hne.
    destruct (update_new_timestamp g d ts l r Hne) as [_ Hdt].
    rewrite Hdt. split.
    + now rewrite CIntFacts.diff_ticks_signed_wrap.
    + now apply TimeFacts.elapsed_time_proper.
  - intros E. now destruct (update_same_timestamp g d ts l r E) as (_ & H & _).
  - intros Hz. rewrite Hr. cbn [vx0 vx1 vx2].
    repeat split; now apply TimeFacts.div_zero_improper.
Qed.

(** C8: [reset] zeroes the accumulated wheel angles and the wheel
    velocities and leaves the tick and timestamp baselines (and the
    stored elapsed time) untouched, so the next [update] produces the
    same deltas as it would have without the reset: the accumulated
    angles restart from zero plus the tick delta against the pre-reset
    baseline, and a new timestamp gives the elapsed time against the
    pre-reset timestamp. *)
Theorem reset_keeps_baselines (d : DiffDrive) :
  getWheelJointStates (reset d) = mkWheelJointStates 0.0 0.0 0.0 0.0 /\
  last_tick_left (reset d) = last_tick_left d /\
  last_tick_right (reset d) = last_tick_right d /\
  last_timestamp (reset d) = last_timestamp d /\
  last_diff_time (reset d) = last_diff_time d /\
  forall (g : Statics) (ts l r : Z),
    let after := update kinematics g (reset d) ts l r in
    let plain := update kinematics g d ts l r in
    pose_update after = pose_update plain /\
    pose_update_rates after = pose_update_rates plain /\
    last_diff_time (drive' after) = last_diff_time (drive' plain) /\
    last_timestamp (drive' after) = last_timestamp (drive' plain) /\
    last_rad_left (drive' after)
      = 0.0 + tick_to_rad d * Double.of_int
          (CInt.signed_wrap_diff (baseline (init_l g) (last_tick_left d) l) l) /\
    last_rad_right (drive' after)
      = 0.0 + tick_to_rad d * Double.of_int
          (CInt.signed_wrap_diff (baseline (init_r g) (last_tick_right d) r) r) /\
    (ts <> last_timestamp d ->
     last_diff_time (drive' after)
       = Double.of_int (CInt.signed_wrap_diff (last_timestamp d) ts) / 1000.0).
Proof.
  do 5 (split; [reflexivity|]).
  intros g ts l r after plain. subst after plain.
  destruct (update_ticks g (reset d) ts l r) as (Hl & Hr & _).
  repeat rewrite CIntFacts.diff_ticks_signed_wrap in Hl.
  repeat rewrite CIntFacts.diff_ticks_signed_wrap in Hr.
  do 4 (split;
        [unfold update; cbn;
         destruct (negb (ts =? last_timestamp d)%Z); reflexivity|]).
  split; [exact Hl|]. split; [exact Hr|].
  intros Hne.
  destruct (update_new_timestamp g (reset d) ts l r Hne) as [_ Hdt].
  rewrite CIntFacts.diff_ticks_signed_wrap in Hdt. exact Hdt.
Qed.

(** C9: when the timestamp passed to [update] equals the stored one, the
    stored elapsed time and the wheel rates read by
    [getWheelJointStates] are those from before the call, and the pose
    delta is still the kinematics of this call's tick deltas. *)
Theorem update_same_timestamp_keeps_rates
    (g : Statics) (d : DiffDrive) (ts l r : Z) :
  ts = last_timestamp d ->
  let res := update kinematics g d ts l r in
  last_diff_time (drive' res) = last_diff_time d /\
  wheel_left_angle_rate (getWheelJointStates (drive' res))
    = wheel_left_angle_rate (getWheelJointStates d) /\
  wheel_right_angle_rate (getWheelJointStates (drive' res))
    = wheel_right_angle_rate (getWheelJointStates d) /\
  pose_update res =
    kinematics (bias d) (wheel_radius d)
      (tick_to_rad d * Double.of_int
         (CInt.diff_ticks l (baseline (init_l g) (last_tick_left d) l)))
      (tick_to_rad d * Double.of_int
         (CInt.diff_ticks r (baseline (init_r g) (last_tick_right d) r))).
Proof.
  intros E res. subst res.
  destruct (update_same_timestamp g d ts l r E) as (_ & Hdt & Hvl & Hvr).
  destruct (update_ticks g d ts l r) as (_ & _ & Hp & _).
  unfold getWheelJointStates. cbn [wheel_left_angle_rate wheel_right_angle_rate].
  auto.
Qed.

End OdometryFacts.

(** ** Branch conditions of the translator *)

Module BranchFacts.

Lemma dead_zone_cases (vx : float) :
  dead_zone vx = (if abs vx <? 0.1 then 0.0 else vx).
Proof. reflexivity. Qed.

(** A number of magnitude above one is strictly positive or strictly
    negative. *)
Lemma abs_gt_one_signed (r : float) :
  (1.0 <? abs r) = true -> (0.0 <? r) = true \/ (r <? 0.0) = true.
Proof.
  rewrite !ltb_spec, abs_spec.
  change (Prim2SF 1.0) with (S754_finite false 4503599627370496 (-52)).
  change (Prim2SF 0.0) with (S754_zero false).
  destruct (Prim2SF r) as [s|s| |s m e]; try discriminate;
    intros _; destruct s; auto.
Qed.

Lemma min_speed_abs (s : float) :
  (abs s <? 50.0) = true -> abs (min_speed s) = 50.0.
Proof.
  unfold min_speed. intros ->. destruct (0.0 <? s); reflexivity.
Qed.

Lemma min_speed_pos (s : float) :
  (abs s <? 50.0) = true -> (0.0 <? s) = true -> min_speed s = 50.0.
Proof. unfold min_speed. intros -> ->. reflexivity. Qed.

Lemma min_speed_neg (s : float) :
  (abs s <? 50.0) = true -> (s <? 0.0) = true -> min_speed s = -50.0.
Proof.
  unfold min_speed. intros -> H.
  now rewrite (FloatFacts.ltb_asym _ _ H).
Qed.

Lemma min_speed_id (s : float) :
  (abs s <? 50.0) = false -> min_speed s = s.
Proof. unfold min_speed. intros ->. reflexivity. Qed.

End BranchFacts.

(** ** The velocity command translator *)

(** C5: when |wz| < 1e-4 the stored command is radius = 0 and speed =
    1000 * vx, with vx first replaced by 0 if |vx| < 0.1; on a
    constructed object, vx = 1.0 and wz = 0.00005 give radius 0 and speed
    1000.0. *)
Theorem velocityCommands_straight_line :
  (forall (d : DiffDrive) (vx wz : float),
     (abs wz <? 0.0001) = true ->
     let d' := fst (velocityCommands d vx wz) in
     radius d' = 0.0 /\
     speed d' = 1000.0 * (if abs vx <? 0.1 then 0.0 else vx)) /\
  (forall (ts : Z) (dt : float),
     let d' := fst (velocityCommands (DiffDrive_ctor ts dt) 1.0 0.00005) in
     radius d' = 0.0 /\ speed d' = 1000.0).
Proof.
  split.
  - intros d vx wz H. unfold velocityCommands.
    change epsilon with 0.0001. rewrite H. cbn. auto.
  - intros ts dt. split; reflexivity.
Qed.

(** C4: when |wz| >= 1e-4 and, after the dead-zone rewrite of vx,
    |vx| < 1e-4 or |1000*vx/wz| <= 1, the stored radius is 1 and the
    stored speed is 1000*bias*wz/2, except that a speed of magnitude below
    50 is stored with magnitude 50: as +50 when it is positive and -50
    when it is negative. *)
Theorem velocityCommands_pivot (d : DiffDrive) (vx wz : float) :
  (0.0001 <=? abs wz) = true ->
  let vx_ := dead_zone vx in
  (abs vx_ <? 0.0001) = true \/ (abs (1000.0 * vx_ / wz) <=? 1.0) = true ->
  let raw := 1000.0 * bias d * wz / 2.0 in
  let d' := fst (velocityCommands d vx wz) in
  radius d' = 1.0 /\
  ((abs raw <? 50.0) = false -> speed d' = raw) /\
  ((abs raw <? 50.0) = true ->
   abs (speed d') = 50.0 /\
   ((0.0 <? raw) = true -> speed d' = 50.0) /\
   ((raw <? 0.0) = true -> speed d' = -50.0)).
Proof.
  intros Hwz vx_ Hbr raw d'. subst d' raw.
  unfold velocityCommands. fold vx_. change epsilon with 0.0001.
  rewrite (FloatFacts.leb_not_ltb _ _ Hwz).
  rewrite (FloatFacts.mul_comm vx_ 1000.0).
  assert (Hc : (abs vx_ <? 0.0001) || (abs (1000.0 * vx_ / wz) <=? 1.0) = true)
    by (destruct Hbr as [-> | ->]; auto using orb_true_r).
  rewrite Hc. cbn [fst set_command radius speed].
  split; [reflexivity|]. split.
  - apply BranchFacts.min_speed_id.
  - intros Hlt. split; [|split].
    + now apply BranchFacts.min_speed_abs.
    + now apply BranchFacts.min_speed_pos.
    + now apply BranchFacts.min_speed_neg.
Qed.

(** C6: when |wz| >= 1e-4 and, after the dead-zone rewrite, |vx| >= 1e-4
    and |1000*vx/wz| > 1, the stored radius is 1000*vx/wz and the stored
    speed is (radius + 1000*bias/2)*wz for a positive radius and
    (radius - 1000*bias/2)*wz for a negative one, the radius being one or
    the other; on a constructed object (bias 0.485), vx = 0.5 and
    wz = 0.3 give radius 1666.67 and speed 572.75 to two decimals. *)
Theorem velocityCommands_general_turn :
  (forall (d : DiffDrive) (vx wz : float),
     (0.0001 <=? abs wz) = true ->
     let vx_ := dead_zone vx in
     (0.0001 <=? abs vx_) = true ->
     (1.0 <? abs (1000.0 * vx_ / wz)) = true ->
     let r := 1000.0 * vx_ / wz in
     let d' := fst (velocityCommands d vx wz) in
     radius d' = r /\
     ((0.0 <? r) = true \/ (r <? 0.0) = true) /\
     ((0.0 <? r) = true -> speed d' = (r + 1000.0 * bias d / 2.0) * wz) /\
     ((r <? 0.0) = true -> speed d' = (r - 1000.0 * bias d / 2.0) * wz)) /\
  (forall (ts : Z) (dt : float),
     let d' := fst (velocityCommands (DiffDrive_ctor ts dt) 0.5 0.3) in
     radius d' = 0x1.a0aaaaaaaaaabp+10 /\
     (abs (radius d' - 1666.67) <? 0.005) = true /\
     speed d' = 572.75 /\
     speed d' = (radius d' + 242.5) * 0.3).
Proof.
  split.
  - intros d vx wz Hwz vx_ Hvx Hr r d'. subst d' r.
    unfold velocityCommands. fold vx_. change epsilon with 0.0001.
    rewrite (FloatFacts.leb_not_ltb _ _ Hwz).
    rewrite (FloatFacts.mul_comm vx_ 1000.0).
    rewrite (FloatFacts.leb_not_ltb _ _ Hvx).
    rewrite (FloatFacts.ltb_not_leb _ _ Hr).
    cbn [orb fst set_command radius speed].
    split; [reflexivity|]. split; [now apply BranchFacts.abs_gt_one_signed|].
    split.
    + intros ->. reflexivity.
    + intros Hneg. now rewrite (FloatFacts.ltb_asym _ _ Hneg).
  - intros ts dt. repeat split; reflexivity.
Qed.

(** ** The bounded firmware command *)

Lemma SHRT_MAX_as_double : Double.of_int CInt.SHRT_MAX = 32767.0.
Proof. reflexivity. Qed.

Lemma SHRT_MIN_as_double : Double.of_int CInt.SHRT_MIN = -32768.0.
Proof. reflexivity. Qed.

Lemma below_min_not_above_max (v : float) :
  (v <? -32768.0) = true -> (32767.0 <? v) = false.
Proof.
  rewrite !ltb_spec.
  rewrite <- SHRT_MIN_as_double, <- SHRT_MAX_as_double.
  rewrite BoundFacts.SHRT_MAX_double, BoundFacts.SHRT_MIN_double.
  destruct (Prim2SF v) as [s|s| |s m e]; try discriminate;
    destruct s; try discriminate; reflexivity.
Qed.

Lemma bound_cases (v : float) :
  bound v =
    if 32767.0 <? v then Some 32767%Z
    else if v <? -32768.0 then Some (-32768)%Z
    else Double.to_short v.
Proof. reflexivity. Qed.

Lemma roundtrip_ok_all : all_i16 roundtrip_ok = true.
Proof. vm_compute. reflexivity. Qed.

Lemma bound_of_int (z : Z) :
  CInt.is_i16 z -> bound (Double.of_int z) = Some z.
Proof.
  intros Hz. pose proof (all_i16_spec _ roundtrip_ok_all z Hz) as H.
  unfold roundtrip_ok in H.
  destruct (bound (Double.of_int z)) as [z'|]; [|discriminate].
  apply Z.eqb_eq in H. now subst.
Qed.

(** C10: storing a raw command of two [short] values and reading the
    bounded firmware command back returns the same two values. *)
Theorem raw_command_roundtrip (d : DiffDrive) (s r : Z) :
  CInt.is_i16 s -> CInt.is_i16 r ->
  velocityCommands_get (velocityCommands_raw d s r) = Some (s, r).
Proof.
  intros Hs Hr. unfold velocityCommands_get, velocityCommands_raw.
  cbn [set_command speed radius].
  now rewrite (bound_of_int s Hs), (bound_of_int r Hr).
Qed.

(** ** Concrete runs *)

(** Both tests of [bound] fail on NaN, whose conversion to [short] is
    undefined. *)
Example bound_nan_undefined : bound nan = None.
Proof. reflexivity. Qed.

(** Pivot above the minimum speed: vx = 0, wz = 0.5. *)
Example pivot_unclamped (ts : Z) (dt : float) :
  let d' := fst (velocityCommands (DiffDrive_ctor ts dt) 0.0 0.5) in
  speed d' = 121.25 /\ radius d' = 1.0.
Proof. split; reflexivity. Qed.

(** Pivot below the minimum speed: vx = 0, wz = 0.05; the raw speed
    12.125 is raised to 50. *)
Example pivot_clamped (ts : Z) (dt : float) :
  let d' := fst (velocityCommands (DiffDrive_ctor ts dt) 0.0 0.05) in
  1000.0 * 0.485 * 0.05 / 2.0 = 12.125 /\
  speed d' = 50.0 /\ radius d' = 1.0.
Proof. repeat split; reflexivity. Qed.

(** The dead zone decides the branch: vx = 0.05, wz = 1 pivots. *)
Example dead_zone_pivots (ts : Z) (dt : float) :
  let d' := fst (velocityCommands (DiffDrive_ctor ts dt) 0.05 1.0) in
  speed d' = 242.5 /\ radius d' = 1.0.
Proof. split; reflexivity. Qed.

(** C2 (a run on which the code departs from it): a first [DiffDrive]
    object is updated once; a second, freshly constructed object then
    receives its first [update] with ticks (100, 200).  The static flags
    are already set, so the ticks are compared with the constructor's
    baselines 0 and 0: the wheel deltas are 100 and 200 ticks and the
    pose delta is not zero. *)
Theorem update_second_instance_not_seeded :
  let first := update ecl_poseUpdate program_start (DiffDrive_ctor 0 0.0) 0 0 0 in
  let fresh := DiffDrive_ctor 0 0.0 in
  let second := update ecl_poseUpdate (statics' first) fresh 0 100 200 in
  statics' first = mkStatics true true /\
  last_rad_left (drive' second) = 0.0 + tick_to_rad fresh * 100.0 /\
  last_rad_right (drive' second) = 0.0 + tick_to_rad fresh * 200.0 /\
  pose_update second =
    ecl_poseUpdate (bias fresh) (wheel_radius fresh)
      (tick_to_rad fresh * 100.0) (tick_to_rad fresh * 200.0) /\
  is_zero (vx0 (pose_update second)) = false /\
  is_zero (vx2 (pose_update second)) = false.
Proof. repeat split; reflexivity. Qed.

(** The same first call made at program start is seeded and yields the
    zero pose delta. *)
Example update_first_instance_seeded :
  let first :=
    update ecl_poseUpdate program_start (DiffDrive_ctor 0 0.0) 0 100 200 in
  pose_update first = mkVector3d 0.0 0.0 0.0 /\
  last_tick_left (drive' first) = 100%Z /\
  last_tick_right (drive' first) = 200%Z.
Proof. repeat split; reflexivity. Qed.

(** C3 fails on the code: an object whose two members left out of the
    initialiser list are zero (as in zero-initialised storage) receives
    its first sample with timestamp 0; the elapsed time used is the stored
    zero and the three pose rates are 0/0 = NaN. *)
Lemma update_zero_elapsed_gives_nan :
  ~ rates_guarded program_start (DiffDrive_ctor 0 0.0) 0 100 200.
Proof.
  unfold rates_guarded. intros H.
  destruct (H eq_refl) as [H0 _]. discriminate H0.
Qed.

(** ** Instances *)

Lemma update_deltas_signed_wraparound_witness :
  let g := mkStatics true true in
  let d := DiffDrive_ctor 65530 0.0 in
  CInt.is_u16 4 /\ CInt.is_u16 65535 /\ CInt.is_u16 200 /\
  CInt.is_u16 (last_timestamp d) /\
  last_rad_left (drive' (update ecl_poseUpdate g d 4 65535 200))
    = 0.0 + tick_to_rad_literal * Double.of_int (-1) /\
  last_diff_time (drive' (update ecl_poseUpdate g d 4 65535 200))
    = Double.of_int 10 / 1000.0.
Proof.
  intros g d.
  assert (H1 : CInt.is_u16 4) by u16.
  assert (H2 : CInt.is_u16 65535) by u16.
  assert (H3 : CInt.is_u16 200) by u16.
  assert (H4 : CInt.is_u16 (last_timestamp d)) by (cbn; u16).
  assert (H5 : CInt.is_u16 (last_tick_left d)) by (cbn; u16).
  assert (H6 : CInt.is_u16 (last_tick_right d)) by (cbn; u16).
  destruct (update_deltas_signed_wraparound ecl_poseUpdate g d 4 65535 200
              H1 H2 H3 H4 H5 H6) as (_ & Hl & _ & _ & Ht).
  assert (Hne : 4%Z <> last_timestamp d) by (cbn; lia).
  exact (conj H1 (conj H2 (conj H3 (conj H4 (conj Hl (Ht Hne)))))).
Defined.

Lemma update_rates_divide_unguarded_witness :
  let d := DiffDrive_ctor 0 0.0 in
  let res := update ecl_poseUpdate program_start d 0 100 200 in
  CInt.is_u16 0 /\ CInt.is_u16 (last_timestamp d) /\
  is_nan (vx0 (pose_update_rates res)) || is_infinity (vx0 (pose_update_rates res))
    = true.
Proof.
  intros d res.
  assert (H1 : CInt.is_u16 0) by u16.
  assert (H2 : CInt.is_u16 (last_timestamp d)) by (cbn; u16).
  destruct (update_rates_divide_unguarded ecl_poseUpdate program_start d
              0 100 200 H1 H2) as (_ & _ & _ & Hz).
  exact (conj H1 (conj H2 (proj1 (Hz eq_refl)))).
Defined.

Lemma reset_keeps_baselines_witness :
  let seeded := mkStatics true true in
  let d :=
    drive' (update ecl_poseUpdate seeded (DiffDrive_ctor 490 0.0)
              500 1000 2000) in
  let after := update ecl_poseUpdate seeded (reset d) 510 1010 1990 in
  510%Z <> last_timestamp d /\
  last_rad_left (drive' after) = 0.0 + tick_to_rad d * 10.0 /\
  last_rad_right (drive' after) = 0.0 + tick_to_rad d * -10.0 /\
  last_diff_time (drive' after) = 10.0 / 1000.0.
Proof.
  intros seeded d after.
  assert (Hne : 510%Z <> last_timestamp d) by (cbn; lia).
  destruct (reset_keeps_baselines ecl_poseUpdate d)
    as (_ & _ & _ & _ & _ & H).
  destruct (H seeded 510%Z 1010%Z 1990%Z) as (_ & _ & _ & _ & Hl & Hr & Ht).
  exact (conj Hne (conj Hl (conj Hr (Ht Hne)))).
Defined.

Lemma update_same_timestamp_keeps_rates_witness :
  let d := reset (DiffDrive_ctor 7 0.25) in
  let res := update ecl_poseUpdate (mkStatics true true) d 7 3 65533 in
  7%Z = last_timestamp d /\ last_diff_time (drive' res) = 0.25.
Proof.
  intros d res. split; [reflexivity|].
  exact (proj1 (update_same_timestamp_keeps_rates ecl_poseUpdate
                  (mkStatics true true) d 7 3 65533 eq_refl)).
Defined.

Lemma velocityCommands_straight_line_witness :
  (abs 0.00005 <? 0.0001) = true /\
  speed (fst (velocityCommands (DiffDrive_ctor 0 0.0) 2.0 0.00005))
    = 1000.0 * 2.0.
Proof.
  split; [reflexivity|].
  exact (proj2 (proj1 velocityCommands_straight_line
                  (DiffDrive_ctor 0 0.0) 2.0 0.00005 eq_refl)).
Defined.

Lemma velocityCommands_pivot_witness :
  (0.0001 <=? abs 0.05) = true /\
  (abs (dead_zone 0.0) <? 0.0001) = true /\
  radius (fst (velocityCommands (DiffDrive_ctor 0 0.0) 0.0 0.05)) = 1.0 /\
  speed (fst (velocityCommands (DiffDrive_ctor 0 0.0) 0.0 0.05)) = 50.0.
Proof.
  destruct (velocityCommands_pivot (DiffDrive_ctor 0 0.0) 0.0 0.05
              eq_refl (or_introl eq_refl)) as (Hr & _ & Hc).
  destruct (Hc eq_refl) as (_ & Hpos & _).
  exact (conj eq_refl (conj eq_refl (conj Hr (Hpos eq_refl)))).
Defined.

Lemma velocityCommands_general_turn_witness :
  (0.0001 <=? abs 0.3) = true /\
  (0.0001 <=? abs (dead_zone 0.5)) = true /\
  (1.0 <? abs (1000.0 * dead_zone 0.5 / 0.3)) = true /\
  speed (fst (velocityCommands (DiffDrive_ctor 0 0.0) 0.5 0.3))
    = (1000.0 * 0.5 / 0.3 + 1000.0 * 0.485 / 2.0) * 0.3.
Proof.
  destruct (proj1 velocityCommands_general_turn (DiffDrive_ctor 0 0.0)
              0.5 0.3 eq_refl eq_refl eq_refl) as (_ & _ & Hpos & _).
  exact (conj eq_refl (conj eq_refl (conj eq_refl (Hpos eq_refl)))).
Defined.

Lemma raw_command_roundtrip_witness :
  CInt.is_i16 (-32768) /\ CInt.is_i16 32767 /\
  velocityCommands_get
    (velocityCommands_raw (DiffDrive_ctor 0 0.0) (-32768) 32767)
  = Some ((-32768)%Z, 32767%Z).
Proof.
  assert (H1 : CInt.is_i16 (-32768)) by i16.
  assert (H2 : CInt.is_i16 32767) by i16.
  exact (conj H1 (conj H2
    (raw_command_roundtrip (DiffDrive_ctor 0 0.0) (-32768) 32767 H1 H2))).
Defined.

(** * Further properties of the code *)

(** ** The wrap-around difference on its own *)

(** X1: on 16-bit samples the tick difference always fits a [short]; it
    is the plain difference when that fits, and the plain difference
    corrected by one turn of the counter (65536) otherwise. *)
Theorem diff_ticks_one_wrap (prev curr : Z) :
  CInt.is_u16 prev -> CInt.is_u16 curr ->
  CInt.is_i16 (CInt.diff_ticks curr prev) /\
  ((-32768 <= curr - prev <= 32767)%Z ->
   CInt.diff_ticks curr prev = (curr - prev)%Z) /\
  ((32767 < curr - prev)%Z ->
   CInt.diff_ticks curr prev = (curr - prev - 65536)%Z) /\
  ((curr - prev < -32768)%Z ->
   CInt.diff_ticks curr prev = (curr - prev + 65536)%Z).
Proof.
  unfold CInt.is_u16, CInt.USHRT_MAX. intros Hp Hc.
  rewrite CIntFacts.diff_ticks_signed_wrap.
  split; [apply CIntFacts.signed_wrap_diff_range|].
  unfold CInt.signed_wrap_diff.
  repeat split; intros H; Z.div_mod_to_equations; lia.
Qed.

(** X2: swapping the two samples negates the difference, except when they
    are exactly half a turn (32768) apart: then the difference is -32768
    in both directions. *)
Theorem diff_ticks_reverse (prev curr : Z) :
  CInt.is_u16 prev -> CInt.is_u16 curr ->
  ((curr - prev <> 32768 /\ prev - curr <> 32768)%Z ->
   CInt.diff_ticks prev curr = (- CInt.diff_ticks curr prev)%Z) /\
  ((curr - prev = 32768 \/ prev - curr = 32768)%Z ->
   CInt.diff_ticks curr prev = (-32768)%Z /\
   CInt.diff_ticks prev curr = (-32768)%Z).
Proof.
  unfold CInt.is_u16, CInt.USHRT_MAX. intros Hp Hc.
  rewrite !CIntFacts.diff_ticks_signed_wrap.
  unfold CInt.signed_wrap_diff.
  split; intros H; [|split]; Z.div_mod_to_equations; lia.
Qed.

(** X3: differences chain.  Going from [a] to [b] and from [b] to [c]
    gives, modulo 65536, the difference from [a] to [c]; the two are
    equal as soon as the sum of the two steps fits a [short]. *)
Theorem diff_ticks_chain (a b c : Z) :
  ((CInt.diff_ticks b a + CInt.diff_ticks c b - CInt.diff_ticks c a)
     mod 65536 = 0)%Z /\
  (CInt.is_i16 (CInt.diff_ticks b a + CInt.diff_ticks c b) ->
   CInt.diff_ticks c a = (CInt.diff_ticks b a + CInt.diff_ticks c b)%Z).
Proof.
  rewrite !CIntFacts.diff_ticks_signed_wrap.
  unfold CInt.is_i16, CInt.SHRT_MIN, CInt.SHRT_MAX, CInt.signed_wrap_diff.
  split; [|intros H]; Z.div_mod_to_equations; lia.
Qed.

(** ** Sequences of updates *)

Section UpdateSequences.

Variable kinematics : float -> float -> float -> float -> Vector3d.

(** What a call of [update] leaves behind, whatever the branch taken. *)
Lemma update_frame (g : Statics) (d : DiffDrive) (ts l r : Z) :
  let res := update kinematics g d ts l r in
  statics' res = mkStatics true true /\
  last_timestamp (drive' res) = ts /\
  last_tick_left (drive' res) = l /\
  last_tick_right (drive' res) = r /\
  bias (drive' res) = bias d /\
  wheel_radius (drive' res) = wheel_radius d /\
  tick_to_rad (drive' res) = tick_to_rad d /\
  speed (drive' res) = speed d /\
  radius (drive' res) = radius d /\
  point_velocity (drive' res) = point_velocity d.
Proof.
  unfold update.
  destruct (Z.eqb_spec ts (last_timestamp d)) as [E|E]; cbn;
    repeat split; auto.
Qed.

(** X4: once [update] has run on any object, the seeding is over for the
    whole program: every later call, on the same or on any other object
    [d], measures the ticks against the baselines stored in [d]. *)
Theorem update_seeding_happens_once
    (g : Statics) (d0 : DiffDrive) (ts0 l0 r0 : Z)
    (d : DiffDrive) (ts l r : Z) :
  let g1 := statics' (update kinematics g d0 ts0 l0 r0) in
  let res := update kinematics g1 d ts l r in
  let dl := Double.of_int (CInt.signed_wrap_diff (last_tick_left d) l) in
  let dr := Double.of_int (CInt.signed_wrap_diff (last_tick_right d) r) in
  last_rad_left (drive' res) = last_rad_left d + tick_to_rad d * dl /\
  last_rad_right (drive' res) = last_rad_right d + tick_to_rad d * dr /\
  pose_update res =
    kinematics (bias d) (wheel_radius d)
      (tick_to_rad d * dl) (tick_to_rad d * dr).
Proof.
  intros g1 res dl dr. subst g1 res dl dr.
  destruct (update_frame g d0 ts0 l0 r0) as (Hg & _). cbv zeta in Hg.
  rewrite Hg.
  destruct (update_ticks kinematics (mkStatics true true) d ts l r)
    as (Hl & Hr & Hp & _).
  unfold baseline in Hl, Hr, Hp. cbn [init_l init_r] in Hl, Hr, Hp.
  repeat rewrite CIntFacts.diff_ticks_signed_wrap in Hl.
  repeat rewrite CIntFacts.diff_ticks_signed_wrap in Hr.
  repeat rewrite CIntFacts.diff_ticks_signed_wrap in Hp.
  auto.
Qed.

(** X5: feeding the same sample twice in a row.  The second call sees
    zero tick deltas on both wheels, so the accumulated angles only
    receive [tick_to_rad * 0] and the pose delta is that of no wheel
    motion; the elapsed time and the wheel rates of the first call are
    kept, and the stored baselines do not move. *)
Theorem update_repeated_sample (g : Statics) (d : DiffDrive) (ts l r : Z) :
  let first := update kinematics g d ts l r in
  let d1 := drive' first in
  let second := update kinematics (statics' first) d1 ts l r in
  let d2 := drive' second in
  last_rad_left d2 = last_rad_left d1 + tick_to_rad d * 0.0 /\
  last_rad_right d2 = last_rad_right d1 + tick_to_rad d * 0.0 /\
  pose_update second =
    kinematics (bias d) (wheel_radius d)
      (tick_to_rad d * 0.0) (tick_to_rad d * 0.0) /\
  last_diff_time d2 = last_diff_time d1 /\
  last_velocity_left d2 = last_velocity_left d1 /\
  last_velocity_right d2 = last_velocity_right d1 /\
  last_timestamp d2 = ts /\ last_tick_left d2 = l /\ last_tick_right d2 = r.
Proof.
  intros first d1 second d2.
  destruct (update_frame g d ts l r)
    as (Hg & Hts & Hl & Hr & Hb & Hw & Ht & _).
  fold first in Hg, Hts, Hl, Hr, Hb, Hw, Ht. fold d1 in Hts, Hl, Hr, Hb, Hw, Ht.
  destruct (update_ticks kinematics (statics' first) d1 ts l r)
    as (Ha & Hc & Hp & _).
  fold second in Ha, Hc, Hp. fold d2 in Ha, Hc.
  rewrite Hg in Ha, Hc, Hp. unfold baseline in Ha, Hc, Hp.
  cbn [init_l init_r] in Ha, Hc, Hp.
  rewrite Hl, Hr, Ht in *. rewrite Hb, Hw in Hp.
  repeat rewrite CIntFacts.diff_ticks_same in Ha.
  repeat rewrite CIntFacts.diff_ticks_same in Hc.
  repeat rewrite CIntFacts.diff_ticks_same in Hp.
  change (Double.of_int 0) with 0.0 in Ha, Hc, Hp.
  destruct (update_same_timestamp kinematics (statics' first) d1 ts l r
              (eq_sym Hts)) as (_ & Hdt & Hvl & Hvr).
  fold second in Hdt, Hvl, Hvr. fold d2 in Hdt, Hvl, Hvr.
  destruct (update_frame (statics' first) d1 ts l r)
    as (_ & Hts2 & Hl2 & Hr2 & _).
  fold second in Hts2, Hl2, Hr2. fold d2 in Hts2, Hl2, Hr2.
  repeat split; assumption.
Qed.

End UpdateSequences.

(** ** NaN *)

Module NanFacts.

Lemma SFcompare_refl (x : spec_float) :
  x <> S754_nan -> SFcompare x x = Some Eq.
Proof.
  destruct x as [s|s| |s m e]; intros H; try congruence; simpl.
  - reflexivity.
  - destruct s; reflexivity.
  - change (PosDef.Pos.compare_cont Eq m m) with (Pos.compare m m).
    rewrite Z.compare_refl, Pos.compare_refl. destruct s; reflexivity.
Qed.

Lemma is_nan_spec (v : float) :
  is_nan v = true <-> Prim2SF v = S754_nan.
Proof.
  unfold is_nan. rewrite eqb_spec. unfold SFeqb. split.
  - intros H. destruct (Prim2SF v) as [s|s| |s m e] eqn:E; try reflexivity;
      rewrite SFcompare_refl in H by congruence; discriminate.
  - intros ->. reflexivity.
Qed.

Lemma ltb_nan_l (x y : float) : is_nan x = true -> (x <? y) = false.
Proof. rewrite is_nan_spec, ltb_spec. now intros ->. Qed.

Lemma ltb_nan_r (x y : float) : is_nan y = true -> (x <? y) = false.
Proof.
  rewrite is_nan_spec, ltb_spec. intros ->.
  now destruct (Prim2SF x).
Qed.

Lemma leb_nan_l (x y : float) : is_nan x = true -> (x <=? y) = false.
Proof. rewrite is_nan_spec, leb_spec. now intros ->. Qed.

Lemma abs_nan (x : float) : is_nan x = true -> is_nan (abs x) = true.
Proof. rewrite !is_nan_spec, abs_spec. now intros ->. Qed.

Lemma mul_nan_l (x y : float) : is_nan x = true -> is_nan (x * y) = true.
Proof. rewrite !is_nan_spec, mul_spec. now intros ->. Qed.

Lemma mul_nan_r (x y : float) : is_nan y = true -> is_nan (x * y) = true.
Proof.
  rewrite !is_nan_spec, mul_spec. intros ->. now destruct (Prim2SF x).
Qed.

Lemma div_nan_l (x y : float) : is_nan x = true -> is_nan (x / y) = true.
Proof. rewrite !is_nan_spec, div_spec. now intros ->. Qed.

Lemma add_nan_l (x y : float) : is_nan x = true -> is_nan (x + y) = true.
Proof. rewrite !is_nan_spec, add_spec. now intros ->. Qed.

Lemma sub_nan_l (x y : float) : is_nan x = true -> is_nan (x - y) = true.
Proof. rewrite !is_nan_spec, sub_spec. now intros ->. Qed.

(** Neither test of [bound] holds for NaN, and its conversion is
    undefined. *)
Lemma bound_nan (v : float) : is_nan v = true -> bound v = None.
Proof.
  intros H. rewrite bound_cases.
  rewrite (ltb_nan_r _ _ H), (ltb_nan_l _ _ H).
  apply is_nan_spec in H.
  unfold Double.to_short, Double.trunc. now rewrite H.
Qed.

End NanFacts.

(** ** More on [bound] *)

Module BoundSpec.

Import TruncFacts.
Local Open Scope Z_scope.

(** [bound] read on the specification of binary64. *)
Lemma bound_spec (v : float) :
  bound v =
    if SFltb (S754_finite false 9006924376834048 (-38)) (Prim2SF v)
    then Some 32767
    else if SFltb (Prim2SF v) (S754_finite true 4503599627370496 (-37))
    then Some (-32768)
    else match Prim2SF v with
         | S754_zero _ => Some 0
         | S754_finite s m e =>
             let z := cond_Zopp s (Z.shiftl (Zpos m) e) in
             if (-32768 <=? z) && (z <=? 32767) then Some z else None
         | _ => None
         end.
Proof.
  unfold bound. rewrite !ltb_spec.
  rewrite BoundFacts.SHRT_MAX_double, BoundFacts.SHRT_MIN_double.
  unfold Double.to_short, Double.trunc.
  destruct (Prim2SF v); reflexivity.
Qed.

Lemma bound_range (v : float) (z : Z) :
  bound v = Some z -> CInt.is_i16 z.
Proof.
  unfold CInt.is_i16, CInt.SHRT_MIN, CInt.SHRT_MAX.
  rewrite bound_cases.
  destruct (32767.0 <? v)%float; [intros [= <-]; lia|].
  destruct (v <? -32768.0)%float; [intros [= <-]; lia|].
  unfold Double.to_short. destruct (Double.trunc v) as [t|]; [|discriminate].
  unfold CInt.SHRT_MIN, CInt.SHRT_MAX.
  destruct (Z.leb_spec (-32768) t); destruct (Z.leb_spec t 32767);
    cbn; intros [= <-] || discriminate; lia.
Qed.

Lemma bound_defined (v : float) :
  is_nan v = false -> exists z, bound v = Some z.
Proof.
  intros Hnan. rewrite bound_cases.
  destruct (32767.0 <? v)%float eqn:Hhi; [eauto|].
  destruct (v <? -32768.0)%float eqn:Hlo; [eauto|].
  destruct (BoundFacts.trunc_in_range v Hnan Hhi Hlo) as (z & Hz & [H1 H2]).
  exists z. unfold Double.to_short. rewrite Hz.
  apply Z.leb_le in H1, H2. now rewrite H1, H2.
Qed.

End BoundSpec.

(** X6: [bound] is undefined exactly on NaN; on every other double,
    infinities included, it yields an integer of the 16-bit signed
    range. *)
Theorem bound_defined_iff_not_nan (v : float) :
  (bound v = None <-> is_nan v = true) /\
  (forall z, bound v = Some z -> CInt.is_i16 z).
Proof.
  split; [split|].
  - intros H. destruct (is_nan v) eqn:E; [reflexivity|].
    destruct (BoundSpec.bound_defined v E) as [z Hz]. congruence.
  - apply NanFacts.bound_nan.
  - apply BoundSpec.bound_range.
Qed.

(** X7: the firmware command read from an object is a fixed point of the
    raw setter: writing it back with the passthrough overload and reading
    again returns the same pair. *)
Theorem firmware_command_fixed_point (d : DiffDrive) (s r : Z) :
  velocityCommands_get d = Some (s, r) ->
  velocityCommands_get (velocityCommands_raw d s r) = Some (s, r).
Proof.
  unfold velocityCommands_get at 1.
  destruct (bound (speed d)) as [s'|] eqn:Hs; [|discriminate].
  destruct (bound (radius d)) as [r'|] eqn:Hr; [|discriminate].
  intros [= <- <-].
  unfold velocityCommands_get, velocityCommands_raw.
  cbn [set_command speed radius].
  now rewrite (bound_of_int _ (BoundSpec.bound_range _ _ Hs)),
              (bound_of_int _ (BoundSpec.bound_range _ _ Hr)).
Qed.

(** The two saturation tests on each shape of double. *)
Module SaturationTests.

Lemma above_max_zero (s : bool) :
  SFltb (S754_finite false 9006924376834048 (-38)) (S754_zero s) = false.
Proof. reflexivity. Qed.

Lemma below_min_zero (s : bool) :
  SFltb (S754_zero s) (S754_finite true 4503599627370496 (-37)) = false.
Proof. reflexivity. Qed.

Lemma above_max_inf (s : bool) :
  SFltb (S754_finite false 9006924376834048 (-38)) (S754_infinity s)
  = negb s.
Proof. destruct s; reflexivity. Qed.

Lemma below_min_inf (s : bool) :
  SFltb (S754_infinity s) (S754_finite true 4503599627370496 (-37)) = s.
Proof. destruct s; reflexivity. Qed.

Lemma above_max_negative (m : positive) (e : Z) :
  SFltb (S754_finite false 9006924376834048 (-38)) (S754_finite true m e)
  = false.
Proof. reflexivity. Qed.

Lemma below_min_positive (m : positive) (e : Z) :
  SFltb (S754_finite false m e) (S754_finite true 4503599627370496 (-37))
  = false.
Proof. reflexivity. Qed.

End SaturationTests.

(** X8: [bound] never flips the direction of a command: a non-negative
    double gives a non-negative integer and a non-positive double a
    non-positive one. *)
Theorem bound_keeps_sign (v : float) (z : Z) :
  bound v = Some z ->
  ((0.0 <=? v) = true -> (0 <= z)%Z) /\
  ((v <=? 0.0) = true -> (z <= 0)%Z).
Proof.
  rewrite BoundSpec.bound_spec, !leb_spec.
  change (Prim2SF 0.0) with (S754_zero false).
  destruct (Prim2SF v) as [s|s| |s m e].
  - rewrite SaturationTests.above_max_zero, SaturationTests.below_min_zero.
    intros [= <-]. split; intros _; lia.
  - rewrite SaturationTests.above_max_inf, SaturationTests.below_min_inf.
    destruct s; intros [= <-]; split; intros H; try discriminate H; lia.
  - discriminate.
  - pose proof (Z.shiftl_nonneg (Zpos m) e) as Hnn.
    destruct s.
    + rewrite SaturationTests.above_max_negative.
      match goal with
      | |- context [SFltb ?a ?b] => destruct (SFltb a b)
      end; [intros [= <-]; split; intros H; [discriminate H|lia]|].
      cbv zeta. unfold cond_Zopp.
      match goal with
      | |- context [if ?c then Some _ else None] => destruct c
      end; [|discriminate].
      intros [= <-]. split; intros H; [discriminate H|lia].
    + match goal with
      | |- context [SFltb ?a ?b] => destruct (SFltb a b)
      end; [intros [= <-]; split; intros H; [lia|discriminate H]|].
      rewrite SaturationTests.below_min_positive.
      cbv zeta. unfold cond_Zopp.
      match goal with
      | |- context [if ?c then Some _ else None] => destruct c
      end; [|discriminate].
      intros [= <-]. split; intros H; [lia|discriminate H].
Qed.

(** ** The minimum pivot speed, down to the firmware command *)

Module MinSpeedFacts.

Import TruncFacts.
Local Open Scope Z_scope.

Lemma digits2_pos_lower (m : positive) :
  2 ^ (Zpos (digits2_pos m) - 1) <= Zpos m.
Proof.
  induction m as [p IH|p IH|]; simpl digits2_pos;
    rewrite ?Pos2Z.inj_succ;
    try (replace (Z.succ (Zpos (digits2_pos p)) - 1)
           with (Z.succ (Zpos (digits2_pos p) - 1)) by lia;
         rewrite Z.pow_succ_r by lia);
    lia.
Qed.

(** Above the smallest exponent a valid mantissa has its top bit set. *)
Lemma valid_normal_mantissa (s : bool) (m : positive) (e : Z) :
  valid_binary (S754_finite s m e) = true -> -1074 < e ->
  2 ^ 52 <= Zpos m.
Proof.
  unfold valid_binary, bounded, canonical_mantissa, fexp, SpecFloat.emin.
  intros H He. apply andb_prop in H as [H _]. apply Z.eqb_eq in H.
  unfold prec, emax in H.
  assert (Hd : Zpos (digits2_pos m) = 53) by lia.
  pose proof (digits2_pos_lower m) as Hl. rewrite Hd in Hl. exact Hl.
Qed.

Lemma compare_cont_ge (m c : positive) :
  match PosDef.Pos.compare_cont Eq m c with
  | Lt => true | _ => false end = false ->
  (Zpos c <= Zpos m)%Z.
Proof.
  change (PosDef.Pos.compare_cont Eq m c) with (Pos.compare m c).
  destruct (Pos.compare_spec m c) as [Hc|Hc|Hc]; intros H;
    try discriminate; lia.
Qed.

(** A valid double that is not below 50 has an integer part of at
    least 50. *)
Lemma shiftl_at_least_50 (s : bool) (m : positive) (e : Z) :
  valid_binary (S754_finite s m e) = true ->
  SFltb (S754_finite false m e) (S754_finite false 7036874417766400 (-47))
    = false ->
  50 <= Z.shiftl (Zpos m) e.
Proof.
  intros Hv H. unfold SFltb, SFcompare in H.
  destruct (Z.compare_spec e (-47)) as [He|He|He]; try discriminate.
  - subst e. apply compare_cont_ge in H.
    change (Z.neg 47) with (Z.opp (Z.pos 47)).
    rewrite Z.shiftl_opp_r, Z.shiftr_div_pow2 by lia.
    apply Z.div_le_lower_bound; [apply Z.pow_pos_nonneg; lia|].
    change (2 ^ 47 * 50) with 7036874417766400. exact H.
  - pose proof (valid_normal_mantissa s m e Hv ltac:(lia)) as Hm.
    destruct (Z.le_gt_cases 0 e) as [H0|H0].
    + rewrite Z.shiftl_mul_pow2 by lia.
      assert (1 <= 2 ^ e) by (apply (Z.pow_le_mono_r 2 0 e); lia).
      assert (2 ^ 52 = 4503599627370496) by reflexivity. nia.
    + replace e with (- (- e)) by lia.
      rewrite Z.shiftl_opp_r, Z.shiftr_div_pow2 by lia.
      assert (Hp : 2 ^ (- e) <= 2 ^ 46) by (apply Z.pow_le_mono_r; lia).
      assert (Hpos : 0 < 2 ^ (- e)) by (apply Z.pow_pos_nonneg; lia).
      apply Z.div_le_lower_bound; [exact Hpos|].
      assert (2 ^ 52 = 2 ^ 46 * 64) by reflexivity. nia.
Qed.

Lemma min_speed_not_below (s : float) :
  (abs (min_speed s) <? 50.0)%float = false.
Proof.
  unfold min_speed. destruct (abs s <? 50.0)%float eqn:E; [|exact E].
  destruct (0.0 <? s)%float; reflexivity.
Qed.

End MinSpeedFacts.

(** A double that is not below 50 in magnitude is bounded to an integer
    that is not below 50 in magnitude. *)
Lemma bound_at_least_50 (v : float) (z : Z) :
  (abs v <? 50.0) = false -> bound v = Some z -> (50 <= Z.abs z)%Z.
Proof.
  rewrite BoundSpec.bound_spec, ltb_spec, abs_spec.
  change (Prim2SF 50.0) with (S754_finite false 7036874417766400 (-47)).
  pose proof (Prim2SF_valid v) as Hv.
  destruct (Prim2SF v) as [s|s| |s m e].
  - discriminate.
  - intros _.
    rewrite SaturationTests.above_max_inf, SaturationTests.below_min_inf.
    destruct s; intros [= <-]; lia.
  - discriminate.
  - intros H.
    pose proof (MinSpeedFacts.shiftl_at_least_50 s m e Hv H) as Hz.
    match goal with
    | |- context [SFltb ?a ?b] => destruct (SFltb a b)
    end; [intros [= <-]; lia|].
    match goal with
    | |- context [SFltb ?a ?b] => destruct (SFltb a b)
    end; [intros [= <-]; lia|].
    cbv zeta.
    match goal with
    | |- context [if ?c then Some _ else None] => destruct c
    end; [|discriminate].
    intros [= <-]. destruct s; unfold cond_Zopp; lia.
Qed.

(** ** The three branches of the translator, on the source's own tests *)

Lemma velocityCommands_straight_eq (d : DiffDrive) (vx wz : float) :
  (abs wz <? epsilon) = true ->
  velocityCommands d vx wz
  = (set_command d (1000.0 * dead_zone vx) 0.0,
     (1000.0 * dead_zone vx, 0.0)).
Proof. unfold velocityCommands. now intros ->. Qed.

Lemma velocityCommands_pivot_eq (d : DiffDrive) (vx wz : float) :
  (abs wz <? epsilon) = false ->
  (abs (dead_zone vx) <? epsilon)
  || (abs (dead_zone vx * 1000.0 / wz) <=? 1.0) = true ->
  velocityCommands d vx wz
  = (set_command d (min_speed (1000.0 * bias d * wz / 2.0)) 1.0,
     (min_speed (1000.0 * bias d * wz / 2.0), 1.0)).
Proof. unfold velocityCommands. now intros -> ->. Qed.

Lemma velocityCommands_turn_eq (d : DiffDrive) (vx wz : float) :
  (abs wz <? epsilon) = false ->
  (abs (dead_zone vx) <? epsilon)
  || (abs (dead_zone vx * 1000.0 / wz) <=? 1.0) = false ->
  let r := dead_zone vx * 1000.0 / wz in
  let s := if 0.0 <? r then (r + 1000.0 * bias d / 2.0) * wz
           else (r - 1000.0 * bias d / 2.0) * wz in
  velocityCommands d vx wz = (set_command d s r, (s, r)).
Proof. unfold velocityCommands. now intros -> ->. Qed.

Lemma zero_is_not_one : 0.0 <> 1.0.
Proof. intros H. apply (f_equal is_zero) in H. discriminate H. Qed.

(** X9: the stored radius tells which branch of the translator ran: it is
    0 exactly after the straight-line branch and 1 exactly after the
    pivot branch; a general turn never stores one of these two
    sentinels. *)
Theorem radius_identifies_branch (d : DiffDrive) (vx wz : float) :
  let d' := fst (velocityCommands d vx wz) in
  let pivot :=
    (abs (dead_zone vx) <? 0.0001)
    || (abs (dead_zone vx * 1000.0 / wz) <=? 1.0) in
  (radius d' = 0.0 <-> (abs wz <? 0.0001) = true) /\
  (radius d' = 1.0 <-> (abs wz <? 0.0001) = false /\ pivot = true).
Proof.
  intros d' pivot. subst d'.
  change 0.0001 with epsilon in *.
  destruct (abs wz <? epsilon) eqn:Hs.
  - rewrite (velocityCommands_straight_eq d vx wz Hs).
    cbn [fst set_command radius]. split; split; auto.
    + intros H. now destruct (zero_is_not_one H).
    + intros [H _]. discriminate H.
  - destruct pivot eqn:Hp; subst pivot.
    + rewrite (velocityCommands_pivot_eq d vx wz Hs Hp).
      cbn [fst set_command radius]. split; split; auto.
      * intros H. symmetry in H. now destruct (zero_is_not_one H).
      * discriminate.
    + pose proof (velocityCommands_turn_eq d vx wz Hs Hp) as E.
      cbv zeta in E. rewrite E. cbn [fst set_command radius].
      apply orb_false_elim in Hp as [_ Hr].
      split; split; try (intros [_ H]; discriminate H);
        try discriminate; intros H; rewrite H in Hr; discriminate Hr.
Qed.

Lemma dead_zone_idempotent (vx : float) :
  dead_zone (dead_zone vx) = dead_zone vx.
Proof.
  unfold dead_zone. destruct (abs vx <? 0.1) eqn:E; [reflexivity|].
  now rewrite E.
Qed.

(** X11: the translator only ever looks at the dead-zoned linear
    velocity, so a linear velocity of magnitude below 0.1 m/s is treated
    exactly like 0: the result is the same as for vx = 0, and it is a
    straight-line stop or a pivot, never a general turn. *)
Theorem dead_zone_is_zero_command (d : DiffDrive) (vx wz : float) :
  velocityCommands d (dead_zone vx) wz = velocityCommands d vx wz /\
  ((abs vx <? 0.1) = true ->
   let d' := fst (velocityCommands d vx wz) in
   velocityCommands d vx wz = velocityCommands d 0.0 wz /\
   ((radius d' = 0.0 /\ speed d' = 0.0) \/ radius d' = 1.0)).
Proof.
  split.
  - unfold velocityCommands. now rewrite dead_zone_idempotent.
  - intros H d'. subst d'.
    assert (Hz : dead_zone vx = 0.0) by (unfold dead_zone; now rewrite H).
    split.
    + unfold velocityCommands. rewrite Hz. reflexivity.
    + destruct (abs wz <? epsilon) eqn:Hs.
      * left. rewrite (velocityCommands_straight_eq d vx wz Hs), Hz.
        split; reflexivity.
      * right. rewrite (velocityCommands_pivot_eq d vx wz Hs);
          [reflexivity|]. rewrite Hz. reflexivity.
Qed.

(** X12: inside both dead zones (|vx| < 0.1 and |wz| < 1e-4) the firmware
    command read back is a full stop, (0, 0). *)
Theorem both_dead_zones_stop (d : DiffDrive) (vx wz : float) :
  (abs vx <? 0.1) = true -> (abs wz <? 0.0001) = true ->
  velocityCommands_get (fst (velocityCommands d vx wz)) = Some (0%Z, 0%Z).
Proof.
  intros Hv Hw.
  rewrite (velocityCommands_straight_eq d vx wz Hw).
  unfold dead_zone. rewrite Hv. reflexivity.
Qed.

Lemma set_command_twice (d : DiffDrive) (s1 r1 s2 r2 : float) :
  set_command (set_command d s1 r1) s2 r2 = set_command d s2 r2.
Proof. reflexivity. Qed.

(** The stored command after a translation is a function of the bias and
    of the two arguments only. *)
Lemma velocityCommands_on_set_command (d : DiffDrive) (s r vx wz : float) :
  velocityCommands (set_command d s r) vx wz = velocityCommands d vx wz.
Proof.
  unfold velocityCommands. cbn [bias set_command].
  destruct (abs wz <? epsilon); [reflexivity|].
  destruct ((abs (dead_zone vx) <? epsilon)
            || (abs (dead_zone vx * 1000.0 / wz) <=? 1.0)); reflexivity.
Qed.

Lemma velocityCommands_is_set_command (d : DiffDrive) (vx wz : float) :
  fst (velocityCommands d vx wz)
  = set_command d (fst (snd (velocityCommands d vx wz)))
      (snd (snd (velocityCommands d vx wz))).
Proof.
  unfold velocityCommands.
  destruct (abs wz <? epsilon); [reflexivity|].
  destruct ((abs (dead_zone vx) <? epsilon)
            || (abs (dead_zone vx * 1000.0 / wz) <=? 1.0)); reflexivity.
Qed.

(** X13: the last command wins.  Whatever command was stored before, by
    a translation or by the raw setter, a translation gives the same
    object as on the original one; and a raw command after a translation
    erases it. *)
Theorem last_command_wins (d : DiffDrive) (vx0 wz0 vx wz : float) (s r : Z) :
  velocityCommands (fst (velocityCommands d vx0 wz0)) vx wz
    = velocityCommands d vx wz /\
  velocityCommands (velocityCommands_raw d s r) vx wz
    = velocityCommands d vx wz /\
  velocityCommands_raw (fst (velocityCommands d vx wz)) s r
    = velocityCommands_raw d s r.
Proof.
  split; [|split].
  - rewrite velocityCommands_is_set_command.
    apply velocityCommands_on_set_command.
  - apply velocityCommands_on_set_command.
  - rewrite velocityCommands_is_set_command. reflexivity.
Qed.

(** X14: a NaN in either argument of the translator ends as a NaN stored
    speed, for which reading the firmware command back is undefined. *)
Theorem nan_command_is_undefined (d : DiffDrive) (vx wz : float) :
  is_nan vx = true \/ is_nan wz = true ->
  let d' := fst (velocityCommands d vx wz) in
  is_nan (speed d') = true /\ velocityCommands_get d' = None.
Proof.
  intros H d'.
  assert (Hs : is_nan (speed d') = true).
  { subst d'. destruct H as [H|H].
    - assert (Hd : dead_zone vx = vx).
      { unfold dead_zone.
        now rewrite (NanFacts.ltb_nan_l _ _ (NanFacts.abs_nan _ H)). }
      destruct (abs wz <? epsilon) eqn:Hw.
      + rewrite (velocityCommands_straight_eq d vx wz Hw), Hd.
        now apply NanFacts.mul_nan_r.
      + assert (Hr : is_nan (vx * 1000.0 / wz) = true)
          by now apply NanFacts.div_nan_l, NanFacts.mul_nan_l.
        pose proof (velocityCommands_turn_eq d vx wz Hw) as E.
        rewrite Hd in E.
        rewrite (NanFacts.ltb_nan_l _ _ (NanFacts.abs_nan _ H)) in E.
        rewrite (NanFacts.leb_nan_l _ _ (NanFacts.abs_nan _ Hr)) in E.
        rewrite (E eq_refl). cbn [fst set_command speed].
        rewrite (NanFacts.ltb_nan_r _ _ Hr).
        now apply NanFacts.mul_nan_l, NanFacts.sub_nan_l.
    - assert (Hw : (abs wz <? epsilon) = false)
        by apply (NanFacts.ltb_nan_l _ _ (NanFacts.abs_nan _ H)).
      destruct ((abs (dead_zone vx) <? epsilon)
                || (abs (dead_zone vx * 1000.0 / wz) <=? 1.0)) eqn:Hp.
      + rewrite (velocityCommands_pivot_eq d vx wz Hw Hp).
        cbn [fst set_command speed].
        assert (Hraw : is_nan (1000.0 * bias d * wz / 2.0) = true)
          by now apply NanFacts.div_nan_l, NanFacts.mul_nan_r.
        unfold min_speed.
        now rewrite (NanFacts.ltb_nan_l _ _ (NanFacts.abs_nan _ Hraw)).
      + pose proof (velocityCommands_turn_eq d vx wz Hw Hp) as E.
        cbv zeta in E. rewrite E. cbn [fst set_command speed].
        destruct (0.0 <? dead_zone vx * 1000.0 / wz);
          now apply NanFacts.mul_nan_r. }
  split; [exact Hs|].
  unfold velocityCommands_get. now rewrite (NanFacts.bound_nan _ Hs).
Qed.

(** ** The two state groups *)

Section StateGroups.

Variable kinematics : float -> float -> float -> float -> Vector3d.

(** [update] reads nothing but the odometry group. *)
Lemma update_reads_odometry_state
    (g : Statics) (d1 d2 : DiffDrive) (ts l r : Z) :
  odometry_state d1 = odometry_state d2 ->
  let a := update kinematics g d1 ts l r in
  let b := update kinematics g d2 ts l r in
  statics' a = statics' b /\
  pose_update a = pose_update b /\
  pose_update_rates a = pose_update_rates b /\
  odometry_state (drive' a) = odometry_state (drive' b).
Proof.
  unfold odometry_state. intros [= E1 E2 E3 E4 E5 E6 E7 E8 E9 E10 E11].
  unfold update. rewrite E1, E2, E3, E4, E5, E6, E7, E8, E9, E10, E11.
  destruct (negb (ts =? last_timestamp d2)%Z); cbn; auto.
Qed.

(** X15: no command function disturbs the odometry.  The translator, the
    raw setter and the telemetry setter leave the odometry group as it
    is, so the wheel joint states read the same and a following [update]
    returns the same pose delta and pose rates and leaves the same
    odometry group as it would have without the command. *)
Theorem commands_leave_odometry
    (d : DiffDrive) (vx wz : float) (s r : Z)
    (g : Statics) (ts l r' : Z) :
  let after_translate := fst (velocityCommands d vx wz) in
  let after_raw := velocityCommands_raw d s r in
  let after_telemetry := setVelocityCommands d vx wz in
  forall d1 : DiffDrive,
    d1 = after_translate \/ d1 = after_raw \/ d1 = after_telemetry ->
    odometry_state d1 = odometry_state d /\
    getWheelJointStates d1 = getWheelJointStates d /\
    pose_update (update kinematics g d1 ts l r')
      = pose_update (update kinematics g d ts l r') /\
    pose_update_rates (update kinematics g d1 ts l r')
      = pose_update_rates (update kinematics g d ts l r') /\
    odometry_state (drive' (update kinematics g d1 ts l r'))
      = odometry_state (drive' (update kinematics g d ts l r')).
Proof.
  intros after_translate after_raw after_telemetry d1 H.
  assert (E : odometry_state d1 = odometry_state d).
  { destruct H as [->|[->| ->]].
    - subst after_translate. now rewrite velocityCommands_is_set_command.
    - reflexivity.
    - reflexivity. }
  split; [exact E|]. split.
  - unfold odometry_state in E. unfold getWheelJointStates.
    injection E as _ _ _ _ -> -> -> -> _ _ _. reflexivity.
  - destruct (update_reads_odometry_state g d1 d ts l r' E)
      as (_ & Hp & Hr & Ho). auto.
Qed.

(** X16: no odometry function disturbs the commands.  [update] and
    [reset] leave the stored speed, radius and telemetry pair as they
    are, so the firmware command and the telemetry read the same before
    and after. *)
Theorem odometry_leaves_commands
    (g : Statics) (d : DiffDrive) (ts l r : Z) :
  let after_update := drive' (update kinematics g d ts l r) in
  command_state after_update = command_state d /\
  command_state (reset d) = command_state d /\
  velocityCommands_get after_update = velocityCommands_get d /\
  velocityCommands_get (reset d) = velocityCommands_get d /\
  pointVelocity after_update = pointVelocity d /\
  pointVelocity (reset d) = pointVelocity d.
Proof.
  intros after_update.
  destruct (update_frame kinematics g d ts l r)
    as (_ & _ & _ & _ & _ & _ & _ & Hs & Hr & Hp).
  fold after_update in Hs, Hr, Hp.
  unfold command_state, velocityCommands_get, pointVelocity.
  rewrite Hs, Hr, Hp. repeat split; reflexivity.
Qed.

End StateGroups.

(** X17: the telemetry pair is exactly what [setVelocityCommands] stored
    last.  Setting it does not change the firmware command, and neither
    the translator nor the raw setter records its arguments in it. *)
Theorem telemetry_roundtrip (d : DiffDrive) (vx wz vx' wz' : float) (s r : Z) :
  pointVelocity (setVelocityCommands d vx wz) = [vx; wz] /\
  velocityCommands_get (setVelocityCommands d vx wz) = velocityCommands_get d /\
  pointVelocity (fst (velocityCommands (setVelocityCommands d vx wz) vx' wz'))
    = [vx; wz] /\
  pointVelocity (velocityCommands_raw (setVelocityCommands d vx wz) s r)
    = [vx; wz].
Proof.
  split; [reflexivity|]. split; [reflexivity|]. split; [|reflexivity].
  rewrite velocityCommands_is_set_command. reflexivity.
Qed.

(** ** Elapsed time and wheel rates *)

Lemma elapsed_bounds_ok_all : all_i16 elapsed_bounds_ok = true.
Proof. vm_compute. reflexivity. Qed.

(** The quotient of a zero angle by a proper elapsed time is zero. *)
Lemma zero_angle_rate (t dt : float) :
  is_finite t = true -> proper_divisor dt = true ->
  is_zero ((t * 0.0) / dt) = true.
Proof.
  unfold is_finite, proper_divisor, is_zero, is_nan, is_infinity.
  rewrite !eqb_spec, !abs_spec, div_spec, mul_spec.
  change (Prim2SF zero) with (S754_zero false).
  change (Prim2SF 0.0) with (S754_zero false).
  change (Prim2SF infinity) with (S754_infinity false).
  destruct (Prim2SF t) as [s|s| |s m e];
    try discriminate; try (destruct s; discriminate);
    destruct (Prim2SF dt) as [s'|s'| |s' m' e'];
    try discriminate; try (destruct s'; discriminate);
    intros _ _; reflexivity.
Qed.

Section Rates.

Variable kinematics : float -> float -> float -> float -> Vector3d.

Lemma update_new_timestamp_rates
    (g : Statics) (d : DiffDrive) (ts l r : Z) :
  ts <> last_timestamp d ->
  let res := update kinematics g d ts l r in
  let dt := last_diff_time (drive' res) in
  last_velocity_left (drive' res)
    = (tick_to_rad d * Double.of_int
         (CInt.diff_ticks l (baseline (init_l g) (last_tick_left d) l))) / dt /\
  last_velocity_right (drive' res)
    = (tick_to_rad d * Double.of_int
         (CInt.diff_ticks r (baseline (init_r g) (last_tick_right d) r))) / dt.
Proof.
  intros Hne. unfold update, baseline.
  destruct (Z.eqb_spec ts (last_timestamp d)) as [E|_]; [contradiction|].
  cbn. auto.
Qed.

(** X18: whenever the timestamp differs from the stored one, the elapsed
    time stored is not zero and lies between -32.768 s and 32.767 s; it
    is negative exactly when the timestamp stepped back by at most
    32768 ms or jumped ahead by more than 32767 ms. *)
Theorem elapsed_time_bounds (g : Statics) (d : DiffDrive) (ts l r : Z) :
  CInt.is_u16 ts -> CInt.is_u16 (last_timestamp d) ->
  ts <> last_timestamp d ->
  let dt := last_diff_time (drive' (update kinematics g d ts l r)) in
  is_zero dt = false /\
  (-32.768 <=? dt) = true /\ (dt <=? 32.767) = true /\
  ((dt <? 0.0) = true <->
   (0 < last_timestamp d - ts <= 32768 \/ 32767 < ts - last_timestamp d)%Z).
Proof.
  intros Hts Hlast Hne dt. subst dt.
  destruct (update_new_timestamp kinematics g d ts l r Hne) as [_ Hdt].
  rewrite Hdt.
  pose proof (TimeFacts.elapsed_time_proper _ _ Hlast Hts Hne) as Hp.
  rewrite CIntFacts.diff_ticks_signed_wrap in Hp |- *.
  pose proof (all_i16_spec _ elapsed_bounds_ok_all _
                (CIntFacts.signed_wrap_diff_range (last_timestamp d) ts)) as H.
  pose proof (CIntFacts.signed_wrap_diff_nonzero _ _ Hlast Hts Hne) as Hnz.
  unfold elapsed_bounds_ok in H. cbv zeta in H.
  apply orb_prop in H as [H|H]; [apply Z.eqb_eq in H; contradiction|].
  apply andb_prop in H as [H Hsign]. apply andb_prop in H as [Hlo Hhi].
  apply Bool.eqb_prop in Hsign.
  split.
  { unfold proper_divisor in Hp.
    apply andb_prop in Hp as [Hp _]. apply andb_prop in Hp as [Hp _].
    now destruct (is_zero _). }
  split; [exact Hlo|]. split; [exact Hhi|].
  rewrite Hsign, Z.ltb_lt.
  unfold CInt.is_u16, CInt.USHRT_MAX in Hts, Hlast.
  unfold CInt.signed_wrap_diff.
  split; intros Hc; Z.div_mod_to_equations; lia.
Qed.

(** X19: a wheel whose tick does not differ from its baseline (because
    the wheel is being seeded, or because the tick equals the stored
    one) gets a zero rate whenever the timestamp changed, for a finite
    tick-to-radian factor. *)
Theorem standing_wheel_has_zero_rate
    (g : Statics) (d : DiffDrive) (ts l r : Z) :
  CInt.is_u16 ts -> CInt.is_u16 (last_timestamp d) ->
  ts <> last_timestamp d ->
  is_finite (tick_to_rad d) = true ->
  let js := getWheelJointStates (drive' (update kinematics g d ts l r)) in
  (baseline (init_l g) (last_tick_left d) l = l ->
   is_zero (wheel_left_angle_rate js) = true) /\
  (baseline (init_r g) (last_tick_right d) r = r ->
   is_zero (wheel_right_angle_rate js) = true).
Proof.
  intros Hts Hlast Hne Hfin js. subst js.
  destruct (update_new_timestamp_rates g d ts l r Hne) as [Hl Hr].
  destruct (update_new_timestamp kinematics g d ts l r Hne) as [_ Hdt].
  pose proof (TimeFacts.elapsed_time_proper _ _ Hlast Hts Hne) as Hp.
  rewrite <- Hdt in Hp.
  unfold getWheelJointStates.
  cbn [wheel_left_angle_rate wheel_right_angle_rate].
  split; intros Hb.
  - rewrite Hl, Hb, CIntFacts.diff_ticks_same.
    change (Double.of_int 0) with 0.0. now apply zero_angle_rate.
  - rewrite Hr, Hb, CIntFacts.diff_ticks_same.
    change (Double.of_int 0) with 0.0. now apply zero_angle_rate.
Qed.

End Rates.

(** ** Seeding, wheel by wheel *)

Section Seeding.

Variable kinematics : float -> float -> float -> float -> Vector3d.

(** X20: a wheel whose static flag is still clear is seeded by the call:
    whatever tick is stored for it and whatever tick is supplied, its
    delta is zero and the supplied tick becomes its baseline.  With both
    flags clear the pose delta is that of no wheel motion.  Both flags
    are set afterwards. *)
Theorem unseeded_wheel_is_seeded (g : Statics) (d : DiffDrive) (ts l r : Z) :
  let res := update kinematics g d ts l r in
  (init_l g = false ->
   last_rad_left (drive' res) = last_rad_left d + tick_to_rad d * 0.0 /\
   last_tick_left (drive' res) = l) /\
  (init_r g = false ->
   last_rad_right (drive' res) = last_rad_right d + tick_to_rad d * 0.0 /\
   last_tick_right (drive' res) = r) /\
  (init_l g = false -> init_r g = false ->
   pose_update res =
     kinematics (bias d) (wheel_radius d)
       (tick_to_rad d * 0.0) (tick_to_rad d * 0.0)) /\
  statics' res = mkStatics true true.
Proof.
  intros res. subst res.
  destruct (update_ticks kinematics g d ts l r) as (Hl & Hr & Hp & Hbl & Hbr).
  destruct (update_frame kinematics g d ts l r) as (Hg & _).
  unfold baseline in Hl, Hr, Hp.
  split; [|split; [|split; [|exact Hg]]].
  - intros E. rewrite E, CIntFacts.diff_ticks_same in Hl. auto.
  - intros E. rewrite E, CIntFacts.diff_ticks_same in Hr. auto.
  - intros El Er. rewrite El, Er, !CIntFacts.diff_ticks_same in Hp. exact Hp.
Qed.

End Seeding.

(** ** Instances of the further properties *)

Lemma diff_ticks_one_wrap_witness :
  CInt.is_u16 65530 /\ CInt.is_u16 5 /\ (5 - 65530 < -32768)%Z /\
  CInt.diff_ticks 5 65530 = 11%Z.
Proof.
  assert (H1 : CInt.is_u16 65530) by u16.
  assert (H2 : CInt.is_u16 5) by u16.
  assert (H3 : (5 - 65530 < -32768)%Z) by lia.
  destruct (diff_ticks_one_wrap 65530 5 H1 H2) as (_ & _ & _ & H).
  exact (conj H1 (conj H2 (conj H3 (H H3)))).
Defined.

Lemma diff_ticks_reverse_witness :
  CInt.is_u16 0 /\ CInt.is_u16 32768 /\ (32768 - 0 = 32768)%Z /\
  CInt.diff_ticks 32768 0 = (-32768)%Z /\
  CInt.diff_ticks 0 32768 = (-32768)%Z.
Proof.
  assert (H1 : CInt.is_u16 0) by u16.
  assert (H2 : CInt.is_u16 32768) by u16.
  assert (H3 : (32768 - 0 = 32768)%Z) by reflexivity.
  destruct (diff_ticks_reverse 0 32768 H1 H2) as [_ H].
  exact (conj H1 (conj H2 (conj H3 (H (or_introl H3))))).
Defined.

Lemma diff_ticks_chain_witness :
  CInt.is_i16 (CInt.diff_ticks 100 65000 + CInt.diff_ticks 700 100) /\
  CInt.diff_ticks 700 65000 = 1236%Z.
Proof.
  assert (H : CInt.is_i16 (CInt.diff_ticks 100 65000 + CInt.diff_ticks 700 100)).
  { change (CInt.diff_ticks 100 65000 + CInt.diff_ticks 700 100)%Z
      with 1236%Z. i16. }
  exact (conj H (proj2 (diff_ticks_chain 65000 100 700) H)).
Defined.

Lemma bound_defined_iff_not_nan_witness :
  bound infinity = Some 32767%Z /\ CInt.is_i16 32767.
Proof.
  exact (conj eq_refl
           (proj2 (bound_defined_iff_not_nan infinity) 32767%Z eq_refl)).
Defined.

Lemma firmware_command_fixed_point_witness :
  let d := set_command (DiffDrive_ctor 0 0.0) 40000.5 (-3.7) in
  velocityCommands_get d = Some (32767%Z, (-3)%Z) /\
  velocityCommands_get (velocityCommands_raw d 32767 (-3))
    = Some (32767%Z, (-3)%Z).
Proof.
  intros d.
  exact (conj eq_refl (firmware_command_fixed_point d 32767 (-3) eq_refl)).
Defined.

Lemma bound_keeps_sign_witness :
  bound 12.75 = Some 12%Z /\ (0.0 <=? 12.75) = true /\ (0 <= 12)%Z.
Proof.
  exact (conj eq_refl
           (conj eq_refl
              (proj1 (bound_keeps_sign 12.75 12 eq_refl) eq_refl))).
Defined.

Lemma radius_identifies_branch_witness :
  let d' := fst (velocityCommands (DiffDrive_ctor 0 0.0) 0.0 0.5) in
  (abs 0.5 <? 0.0001) = false /\
  (abs (dead_zone 0.0) <? 0.0001)
  || (abs (dead_zone 0.0 * 1000.0 / 0.5) <=? 1.0) = true /\
  radius d' = 1.0.
Proof.
  intros d'.
  exact (conj eq_refl
           (conj eq_refl
              (proj2 (proj2 (radius_identifies_branch
                               (DiffDrive_ctor 0 0.0) 0.0 0.5))
                 (conj eq_refl eq_refl)))).
Defined.

Lemma dead_zone_is_zero_command_witness :
  (abs 0.05 <? 0.1) = true /\
  velocityCommands (DiffDrive_ctor 0 0.0) 0.05 1.0
    = velocityCommands (DiffDrive_ctor 0 0.0) 0.0 1.0.
Proof.
  exact (conj eq_refl
           (proj1 (proj2 (dead_zone_is_zero_command
                            (DiffDrive_ctor 0 0.0) 0.05 1.0) eq_refl))).
Defined.

Lemma both_dead_zones_stop_witness :
  (abs (-0.05) <? 0.1) = true /\ (abs 0.00005 <? 0.0001) = true /\
  velocityCommands_get
    (fst (velocityCommands (DiffDrive_ctor 0 0.0) (-0.05) 0.00005))
  = Some (0%Z, 0%Z).
Proof.
  exact (conj eq_refl
           (conj eq_refl
              (both_dead_zones_stop (DiffDrive_ctor 0 0.0) (-0.05) 0.00005
                 eq_refl eq_refl))).
Defined.

Lemma nan_command_is_undefined_witness :
  is_nan nan = true /\
  velocityCommands_get (fst (velocityCommands (DiffDrive_ctor 0 0.0) nan 0.3))
  = None.
Proof.
  exact (conj eq_refl
           (proj2 (nan_command_is_undefined (DiffDrive_ctor 0 0.0) nan 0.3
                     (or_introl eq_refl)))).
Defined.

Lemma commands_leave_odometry_witness :
  let d := drive' (update ecl_poseUpdate (mkStatics true true)
                     (DiffDrive_ctor 0 0.0) 10 100 200) in
  let d1 := velocityCommands_raw d 300 (-40) in
  getWheelJointStates d1 = getWheelJointStates d /\
  pose_update (update ecl_poseUpdate (mkStatics true true) d1 20 110 190)
  = pose_update (update ecl_poseUpdate (mkStatics true true) d 20 110 190).
Proof.
  intros d d1.
  destruct (commands_leave_odometry ecl_poseUpdate d 0.5 0.3 300 (-40)
              (mkStatics true true) 20 110 190 d1
              (or_intror (or_introl eq_refl))) as (_ & Hj & Hp & _).
  exact (conj Hj Hp).
Defined.

Lemma elapsed_time_bounds_witness :
  let d := DiffDrive_ctor 10 0.0 in
  CInt.is_u16 5 /\ CInt.is_u16 (last_timestamp d) /\
  5%Z <> last_timestamp d /\
  (last_diff_time
     (drive' (update ecl_poseUpdate program_start d 5 0 0)) <? 0.0) = true.
Proof.
  intros d.
  assert (H1 : CInt.is_u16 5) by u16.
  assert (H2 : CInt.is_u16 (last_timestamp d)) by (cbn; u16).
  assert (H3 : 5%Z <> last_timestamp d) by (cbn; lia).
  destruct (elapsed_time_bounds ecl_poseUpdate program_start d 5 0 0
              H1 H2 H3) as (_ & _ & _ & H).
  assert (H4 : (0 < last_timestamp d - 5 <= 32768
                \/ 32767 < 5 - last_timestamp d)%Z) by (cbn; lia).
  exact (conj H1 (conj H2 (conj H3 (proj2 H H4)))).
Defined.

Lemma standing_wheel_has_zero_rate_witness :
  let g := mkStatics true true in
  let d := DiffDrive_ctor 10 0.0 in
  CInt.is_u16 20 /\ CInt.is_u16 (last_timestamp d) /\
  20%Z <> last_timestamp d /\ is_finite (tick_to_rad d) = true /\
  baseline (init_l g) (last_tick_left d) 0 = 0%Z /\
  is_zero (wheel_left_angle_rate
             (getWheelJointStates
                (drive' (update ecl_poseUpdate g d 20 0 5)))) = true.
Proof.
  intros g d.
  assert (H1 : CInt.is_u16 20) by u16.
  assert (H2 : CInt.is_u16 (last_timestamp d)) by (cbn; u16).
  assert (H3 : 20%Z <> last_timestamp d) by (cbn; lia).
  destruct (standing_wheel_has_zero_rate ecl_poseUpdate g d 20 0 5
              H1 H2 H3 eq_refl) as [H _].
  exact (conj H1 (conj H2 (conj H3 (conj eq_refl (conj eq_refl (H eq_refl)))))).
Defined.

Lemma unseeded_wheel_is_seeded_witness :
  let d := DiffDrive_ctor 0 0.0 in
  init_l program_start = false /\
  last_tick_left (drive' (update ecl_poseUpdate program_start d 0 4321 17))
  = 4321%Z.
Proof.
  intros d.
  destruct (unseeded_wheel_is_seeded ecl_poseUpdate program_start d 0 4321 17)
    as (H & _).
  exact (conj eq_refl (proj2 (H eq_refl))).
Defined.

(** ** The radius a general turn transmits *)

Module TurnRadiusFacts.

Local Open Scope Z_scope.

Lemma compare_cont_gt (m c : positive) :
  match PosDef.Pos.compare_cont Eq m c with
  | Gt => false | _ => true end = false ->
  (Zpos c < Zpos m)%Z.
Proof.
  change (PosDef.Pos.compare_cont Eq m c) with (Pos.compare m c).
  destruct (Pos.compare_spec m c) as [Hc|Hc|Hc]; intros H;
    try discriminate; lia.
Qed.

(** A valid double above one has an integer part of at least one. *)
Lemma shiftl_at_least_1 (s : bool) (m : positive) (e : Z) :
  valid_binary (S754_finite s m e) = true ->
  SFleb (S754_finite false m e) (S754_finite false 4503599627370496 (-52))
    = false ->
  1 <= Z.shiftl (Zpos m) e.
Proof.
  intros Hv H. unfold SFleb, SFcompare in H.
  destruct (Z.compare_spec e (-52)) as [He|He|He]; try discriminate.
  - subst e.
    assert (Hm : 4503599627370496 < Zpos m).
    { apply compare_cont_gt.
      destruct (PosDef.Pos.compare_cont Eq m 4503599627370496);
        [discriminate H|discriminate H|reflexivity]. }
    change (Z.neg 52) with (Z.opp (Z.pos 52)).
    rewrite Z.shiftl_opp_r, Z.shiftr_div_pow2 by lia.
    apply Z.div_le_lower_bound; [apply Z.pow_pos_nonneg; lia|].
    change (2 ^ 52 * 1) with 4503599627370496. lia.
  - pose proof (MinSpeedFacts.valid_normal_mantissa s m e Hv ltac:(lia)) as Hm.
    destruct (Z.le_gt_cases 0 e) as [H0|H0].
    + rewrite Z.shiftl_mul_pow2 by lia.
      assert (1 <= 2 ^ e) by (apply (Z.pow_le_mono_r 2 0 e); lia).
      assert (2 ^ 52 = 4503599627370496) by reflexivity. nia.
    + replace e with (- (- e)) by lia.
      rewrite Z.shiftl_opp_r, Z.shiftr_div_pow2 by lia.
      assert (Hp : 2 ^ (- e) <= 2 ^ 51) by (apply Z.pow_le_mono_r; lia).
      assert (Hpos : 0 < 2 ^ (- e)) by (apply Z.pow_pos_nonneg; lia).
      apply Z.div_le_lower_bound; [exact Hpos|].
      assert (2 ^ 52 = 2 ^ 51 * 2) by reflexivity. nia.
Qed.

End TurnRadiusFacts.

(** A double that is not within [-1, 1] is bounded to a non-zero
    integer. *)
Lemma bound_at_least_1 (v : float) (z : Z) :
  (abs v <=? 1.0) = false -> bound v = Some z -> (1 <= Z.abs z)%Z.
Proof.
  rewrite BoundSpec.bound_spec, leb_spec, abs_spec.
  change (Prim2SF 1.0) with (S754_finite false 4503599627370496 (-52)).
  pose proof (Prim2SF_valid v) as Hv.
  destruct (Prim2SF v) as [s|s| |s m e].
  - discriminate.
  - intros _.
    rewrite SaturationTests.above_max_inf, SaturationTests.below_min_inf.
    destruct s; intros [= <-]; lia.
  - discriminate.
  - intros H.
    pose proof (TurnRadiusFacts.shiftl_at_least_1 s m e Hv H) as Hz.
    match goal with
    | |- context [SFltb ?a ?b] => destruct (SFltb a b)
    end; [intros [= <-]; lia|].
    match goal with
    | |- context [SFltb ?a ?b] => destruct (SFltb a b)
    end; [intros [= <-]; lia|].
    cbv zeta.
    match goal with
    | |- context [if ?c then Some _ else None] => destruct c
    end; [|discriminate].
    intros [= <-]. destruct s; unfold cond_Zopp; lia.
Qed.

(** ** Rounding in the normal range keeps the sign

    Facts about the rounding of [spec_float] products and quotients whose
    magnitude stays clear of the subnormal range: the result cannot
    collapse to zero, so it carries the sign of the exact result. *)

Module RoundFacts.

Local Open Scope Z_scope.

Lemma shr_1_m (mrs : shr_record) :
  0 <= shr_m mrs -> shr_m (shr_1 mrs) = shr_m mrs / 2.
Proof.
  destruct mrs as [m r s]. simpl. intros H.
  destruct m as [|p|p]; [reflexivity| |lia].
  destruct p as [p|p|]; simpl shr_m.
  - rewrite Pos2Z.inj_xI. apply Z.div_unique with (r := 1); lia.
  - rewrite Pos2Z.inj_xO. apply Z.div_unique with (r := 0); lia.
  - reflexivity.
Qed.

Lemma iter_shr_1_m (p : positive) (mrs : shr_record) :
  0 <= shr_m mrs ->
  shr_m (iter_pos shr_1 p mrs) = shr_m mrs / 2 ^ Zpos p.
Proof.
  revert mrs. induction p as [p IH|p IH|]; intros mrs H; simpl iter_pos.
  - assert (H1 : 0 <= shr_m (shr_1 mrs))
      by (rewrite shr_1_m by assumption; apply Z.div_pos; lia).
    assert (H2 : 0 <= shr_m (iter_pos shr_1 p (shr_1 mrs)))
      by (rewrite IH by assumption; apply Z.div_pos; [lia|apply Z.pow_pos_nonneg; lia]).
    rewrite IH, IH, shr_1_m by assumption.
    rewrite !Z.div_div by (try apply Z.pow_pos_nonneg; lia).
    f_equal. rewrite (Pos2Z.inj_xI p).
    replace (2 * Zpos p + 1) with (1 + Zpos p + Zpos p) by lia.
    rewrite !Z.pow_add_r by lia. lia.
  - assert (H2 : 0 <= shr_m (iter_pos shr_1 p mrs))
      by (rewrite IH by assumption; apply Z.div_pos; [lia|apply Z.pow_pos_nonneg; lia]).
    rewrite IH, IH by assumption.
    rewrite !Z.div_div by (try apply Z.pow_pos_nonneg; lia).
    f_equal. rewrite (Pos2Z.inj_xO p).
    replace (2 * Zpos p) with (Zpos p + Zpos p) by lia.
    rewrite !Z.pow_add_r by lia. lia.
  - rewrite shr_1_m by assumption. reflexivity.
Qed.

(** One rounding step of the normal range keeps a positive mantissa positive
    and never lowers the exponent. *)
Lemma shr_fexp_normal (m : positive) (e : Z) (l : location) :
  -1074 <= Zpos (digits2_pos m) + e - 53 ->
  let '(mrs, e') := shr_fexp prec emax (Zpos m) e l in
  0 < shr_m mrs /\ e <= e' /\
  shr_m mrs + 1 <= 2 ^ 53 /\
  (forall p, shr_m mrs = Zpos p -> Zpos (digits2_pos m) + e <= Zpos (digits2_pos p) + e').
Proof.
  intros Hn. unfold shr_fexp, shr, fexp, SpecFloat.emin, prec, emax.
  simpl Zdigits2.
  pose proof (TruncFacts.digits2_pos_bound m) as Hu.
  pose proof (MinSpeedFacts.digits2_pos_lower m) as Hl.
  set (d := Zpos (digits2_pos m)) in *.
  replace (Z.max (d + e - 53) (3 - 1024 - 53) - e) with (d - 53) by lia.
  destruct (d - 53) as [|n|n] eqn:En.
  - assert (shr_m (shr_record_of_loc (Zpos m) l) = Zpos m)
      by (destruct l as [|[]]; reflexivity).
    rewrite H. repeat split; try lia.
    + assert (d = 53) by lia. rewrite H0 in Hu. lia.
    + intros p [= <-]. fold d. lia.
  - assert (H0 : shr_m (shr_record_of_loc (Zpos m) l) = Zpos m)
      by (destruct l as [|[]]; reflexivity).
    rewrite iter_shr_1_m by (rewrite H0; lia). rewrite H0.
    assert (Hd : d = 53 + Zpos n) by lia.
    assert (Hp : 0 < 2 ^ Zpos n) by (apply Z.pow_pos_nonneg; lia).
    assert (Hlow : 2 ^ 52 <= Zpos m / 2 ^ Zpos n).
    { apply Z.div_le_lower_bound; [exact Hp|].
      rewrite <- Z.pow_add_r by lia.
      replace (Zpos n + 52) with (d - 1) by lia. exact Hl. }
    assert (Hup : Zpos m / 2 ^ Zpos n < 2 ^ 53).
    { apply Z.div_lt_upper_bound; [exact Hp|].
      rewrite <- Z.pow_add_r by lia.
      replace (Zpos n + 53) with d by lia. exact Hu. }
    assert (2 ^ 52 = 4503599627370496) by reflexivity.
    repeat split; try lia.
    intros p Hp'. rewrite Hp' in Hlow, Hup.
    pose proof (TruncFacts.digits2_pos_bound p). pose proof (MinSpeedFacts.digits2_pos_lower p).
    assert (Zpos (digits2_pos p) = 53).
    { destruct (Z.lt_trichotomy (Zpos (digits2_pos p)) 53) as [C|[C|C]]; [|exact C|].
      - assert (2 ^ Zpos (digits2_pos p) <= 2 ^ 52) by (apply Z.pow_le_mono_r; lia). lia.
      - assert (2 ^ 53 <= 2 ^ (Zpos (digits2_pos p) - 1)) by (apply Z.pow_le_mono_r; lia). lia. }
    lia.
  - assert (shr_m (shr_record_of_loc (Zpos m) l) = Zpos m)
      by (destruct l as [|[]]; reflexivity).
    rewrite H. repeat split; try lia.
    + assert (2 ^ d <= 2 ^ 53) by (apply Z.pow_le_mono_r; lia). lia.
    + intros p [= <-]. fold d. lia.
Qed.

Lemma digits2_pos_mono (p q : positive) :
  Zpos p <= Zpos q -> Zpos (digits2_pos p) <= Zpos (digits2_pos q).
Proof.
  intros H.
  pose proof (MinSpeedFacts.digits2_pos_lower p) as Hl.
  pose proof (TruncFacts.digits2_pos_bound q) as Hu.
  assert (Hlt : 2 ^ (Zpos (digits2_pos p) - 1) < 2 ^ Zpos (digits2_pos q)) by lia.
  apply Z.pow_lt_mono_r_iff in Hlt; lia.
Qed.

Lemma round_nearest_even_bounds (m : Z) (l : location) :
  m <= round_nearest_even m l <= m + 1.
Proof.
  unfold round_nearest_even.
  destruct l as [|[]]; try destruct (Z.even m); lia.
Qed.

Lemma binary_round_aux_normal (sx : bool) (mx : positive) (ex : Z) (lx : location) :
  -1074 <= Zpos (digits2_pos mx) + ex - 53 ->
  binary_round_aux prec emax sx (Zpos mx) ex lx = S754_infinity sx \/
  exists m e,
    binary_round_aux prec emax sx (Zpos mx) ex lx = S754_finite sx m e /\ ex <= e.
Proof.
  intros Hn. unfold binary_round_aux.
  pose proof (shr_fexp_normal mx ex lx Hn) as H1.
  destruct (shr_fexp prec emax (Zpos mx) ex lx) as [mrs' e'].
  destruct H1 as (Hpos & He & _ & Hd).
  pose proof (round_nearest_even_bounds (shr_m mrs') (loc_of_shr_record mrs')) as Hr.
  destruct (shr_m mrs') as [|p1|p1] eqn:E1; try lia.
  specialize (Hd p1 eq_refl).
  destruct (round_nearest_even (Zpos p1) (loc_of_shr_record mrs')) as [|p2|p2];
    try lia.
  pose proof (digits2_pos_mono p1 p2 ltac:(lia)) as Hm.
  pose proof (shr_fexp_normal p2 e' loc_Exact ltac:(lia)) as H2.
  destruct (shr_fexp prec emax (Zpos p2) e' loc_Exact) as [mrs'' e''].
  destruct H2 as (Hpos2 & He2 & _).
  destruct (shr_m mrs'') as [|p3|p3]; try lia.
  destruct (e'' <=? emax - prec); [right|left; reflexivity].
  exists p3, e''. split; [reflexivity|lia].
Qed.

Lemma SFmul_sign (sx sy : bool) (mx my : positive) (ex ey : Z) :
  -1021 - 53 + 52 <= ex + ey ->
  SF64mul (S754_finite sx mx ex) (S754_finite sy my ey) = S754_infinity (xorb sx sy) \/
  exists m e,
    SF64mul (S754_finite sx mx ex) (S754_finite sy my ey)
    = S754_finite (xorb sx sy) m e /\ ex + ey <= e.
Proof.
  intros H. unfold SF64mul, SFmul.
  apply binary_round_aux_normal.
  assert (1 <= Zpos (digits2_pos (mx * my))) by lia. lia.
Qed.

Lemma SFdiv_sign (sx sy : bool) (mx my : positive) (ex ey : Z) :
  Zpos (digits2_pos mx) <= 53 ->
  -1074 <= Zpos (digits2_pos mx) + ex - Zpos (digits2_pos my) - ey - 53 ->
  SF64div (S754_finite sx mx ex) (S754_finite sy my ey) = S754_infinity (xorb sx sy) \/
  exists m e,
    SF64div (S754_finite sx mx ex) (S754_finite sy my ey)
    = S754_finite (xorb sx sy) m e.
Proof.
  intros Hd Hn. unfold SF64div, SFdiv, SFdiv_core_binary.
  simpl Zdigits2.
  set (d1 := Zpos (digits2_pos mx)) in *.
  set (d2 := Zpos (digits2_pos my)) in *.
  assert (Hd2 : 1 <= d2) by (subst d2; lia).
  unfold fexp, SpecFloat.emin, prec, emax.
  replace (Z.min (Z.max (d1 + ex - (d2 + ey) - 53) (3 - 1024 - 53)) (ex - ey))
    with (d1 + ex - d2 - ey - 53) by lia.
  replace (ex - ey - (d1 + ex - d2 - ey - 53)) with (53 + d2 - d1) by lia.
  destruct (53 + d2 - d1) as [|n|n] eqn:En; try lia.
  rewrite Z.shiftl_mul_pow2 by lia.
  pose proof (MinSpeedFacts.digits2_pos_lower mx) as Hl. fold d1 in Hl.
  pose proof (TruncFacts.digits2_pos_bound my) as Hu. fold d2 in Hu.
  assert (Hq : 2 ^ 52 <= (Zpos mx * 2 ^ Zpos n) / Zpos my).
  { apply Z.div_le_lower_bound; [lia|].
    assert (2 ^ (d1 - 1) * 2 ^ Zpos n = 2 ^ (52 + d2)).
    { rewrite <- Z.pow_add_r by lia. f_equal. lia. }
    assert (2 ^ (52 + d2) = 2 ^ 52 * 2 ^ d2) by (rewrite Z.pow_add_r by lia; reflexivity).
    assert (0 < 2 ^ 52) by reflexivity.
    assert (0 < 2 ^ Zpos n) by (apply Z.pow_pos_nonneg; lia).
    nia. }
  unfold Z.div in Hq.
  destruct (Z.div_eucl (Zpos mx * 2 ^ Zpos n) (Zpos my)) as [q r].
  simpl fst in Hq.
  assert (0 < 2 ^ 52) by reflexivity.
  destruct q as [|pq|pq]; try lia.
  pose proof (TruncFacts.digits2_pos_bound pq) as Hpq.
  assert (53 <= Zpos (digits2_pos pq)).
  { destruct (Z.le_gt_cases 53 (Zpos (digits2_pos pq))) as [C|C]; [exact C|].
    assert (2 ^ Zpos (digits2_pos pq) <= 2 ^ 52) by (apply Z.pow_le_mono_r; lia).
    lia. }
  destruct (binary_round_aux_normal (xorb sx sy) pq (d1 + ex - d2 - ey - 53)
              (new_location (Zpos my) r) ltac:(lia)) as [Hi|(m & e & Hf & _)].
  - left. exact Hi.
  - right. eauto.
Qed.

End RoundFacts.

(** ** The direction of a pivot *)

Module PivotFacts.

Local Open Scope Z_scope.

Lemma valid_digits (s : bool) (m : positive) (e : Z) :
  valid_binary (S754_finite s m e) = true -> Zpos (digits2_pos m) <= 53.
Proof.
  unfold valid_binary, bounded, canonical_mantissa, fexp, SpecFloat.emin.
  intros H. apply andb_prop in H as [H _]. apply Z.eqb_eq in H.
  unfold prec, emax in H. lia.
Qed.

(** Outside the straight-line band a finite angular rate has an exponent
    of at least -66. *)
Lemma not_straight_exponent (s : bool) (m : positive) (e : Z) :
  SFltb (S754_finite false m e) (S754_finite false 7378697629483821 (-66))
    = false ->
  -66 <= e.
Proof.
  unfold SFltb, SFcompare.
  destruct (Z.compare_spec e (-66)) as [He|He|He]; try discriminate; lia.
Qed.

Lemma positive_is_signed (w : float) :
  (0.0 <? w)%float = true -> signed_nonzero (Prim2SF w) false.
Proof.
  rewrite ltb_spec. change (Prim2SF 0.0%float) with (S754_zero false).
  unfold signed_nonzero.
  destruct (Prim2SF w) as [s|s| |s m e]; try discriminate;
    destruct s; try discriminate; eauto.
Qed.

Lemma negative_is_signed (w : float) :
  (w <? 0.0)%float = true -> signed_nonzero (Prim2SF w) true.
Proof.
  rewrite ltb_spec. change (Prim2SF 0.0%float) with (S754_zero false).
  unfold signed_nonzero.
  destruct (Prim2SF w) as [s|s| |s m e]; try discriminate;
    destruct s; try discriminate; eauto.
Qed.

Lemma signed_is_positive (w : float) :
  signed_nonzero (Prim2SF w) false -> (0.0 <? w)%float = true.
Proof.
  rewrite ltb_spec. change (Prim2SF 0.0%float) with (S754_zero false).
  intros [->|(m & e & ->)]; reflexivity.
Qed.

Lemma signed_is_negative (w : float) :
  signed_nonzero (Prim2SF w) true -> (w <? 0.0)%float = true.
Proof.
  rewrite ltb_spec. change (Prim2SF 0.0%float) with (S754_zero false).
  intros [->|(m & e & ->)]; reflexivity.
Qed.

(** Outside the straight-line band, [485 * wz / 2] has the sign of
    [wz]. *)
Lemma raw_pivot_speed_sign (wz : float) (s : bool) :
  (abs wz <? 0.0001)%float = false ->
  signed_nonzero (Prim2SF wz) s ->
  signed_nonzero (Prim2SF (485.0 * wz / 2.0)%float) s.
Proof.
  rewrite ltb_spec, abs_spec.
  change (Prim2SF 0.0001%float)
    with (S754_finite false 7378697629483821 (-66)).
  intros Hband Hw.
  pose proof (Prim2SF_valid (485.0 * wz)%float) as Hv.
  rewrite div_spec. rewrite mul_spec in Hv |- *.
  change (Prim2SF 485.0%float)
    with (S754_finite false 8532210231541760 (-44)) in Hv |- *.
  change (Prim2SF 2.0%float)
    with (S754_finite false 4503599627370496 (-51)).
  assert (Hx : forall b : bool, xorb b false = b) by (intros []; reflexivity).
  destruct Hw as [E|(m & e & E)]; rewrite E in Hband, Hv |- *.
  - left. change (S754_infinity (xorb (xorb false s) false) = S754_infinity s).
    now rewrite Hx.
  - apply (not_straight_exponent s) in Hband.
    destruct (RoundFacts.SFmul_sign false s 8532210231541760 m (-44) e
                ltac:(lia)) as [Hi|(m1 & e1 & Hf & He1)].
    + rewrite Hi. left.
      change (S754_infinity (xorb (xorb false s) false) = S754_infinity s).
      now rewrite Hx.
    + rewrite Hf in Hv |- *. change (xorb false s) with s in *.
      pose proof (valid_digits _ _ _ Hv) as Hd.
      assert (Hd2 : Zpos (digits2_pos 4503599627370496) = 53)
        by (vm_compute; reflexivity).
      destruct (RoundFacts.SFdiv_sign s false m1 4503599627370496 e1 (-51) Hd
                  ltac:(rewrite Hd2; lia)) as [Hi|(m2 & e2 & Hf2)].
      * rewrite Hi, Hx. left. reflexivity.
      * rewrite Hf2, Hx. right. eauto.
Qed.

End PivotFacts.

(** X22: on an object with the constructor's tread width 0.485, a pivot
    turns the way it is asked to: the stored speed is strictly positive
    for a positive angular rate and strictly negative for a negative
    one, clamped or not. *)
Theorem pivot_follows_angular_rate (d : DiffDrive) (vx wz : float) :
  bias d = 0.485 ->
  (abs wz <? 0.0001) = false ->
  (abs (dead_zone vx) <? 0.0001)
  || (abs (dead_zone vx * 1000.0 / wz) <=? 1.0) = true ->
  let d' := fst (velocityCommands d vx wz) in
  ((0.0 <? wz) = true -> (0.0 <? speed d') = true) /\
  ((wz <? 0.0) = true -> (speed d' <? 0.0) = true).
Proof.
  intros Hb Hs Hp d'. subst d'.
  rewrite (velocityCommands_pivot_eq d vx wz Hs Hp).
  cbn [fst set_command speed]. rewrite Hb.
  change (1000.0 * 0.485) with 485.0.
  unfold min_speed. split; intros Hw.
  - apply PivotFacts.positive_is_signed in Hw.
    apply (PivotFacts.raw_pivot_speed_sign wz false Hs) in Hw.
    apply PivotFacts.signed_is_positive in Hw. rewrite Hw.
    destruct (abs (485.0 * wz / 2.0) <? 50.0); [reflexivity|exact Hw].
  - apply PivotFacts.negative_is_signed in Hw.
    apply (PivotFacts.raw_pivot_speed_sign wz true Hs) in Hw.
    apply PivotFacts.signed_is_negative in Hw.
    rewrite (FloatFacts.ltb_asym _ _ Hw).
    destruct (abs (485.0 * wz / 2.0) <? 50.0); [reflexivity|exact Hw].
Qed.

Lemma pivot_follows_angular_rate_witness :
  let d := DiffDrive_ctor 0 0.0 in
  bias d = 0.485 /\ (abs (-0.05) <? 0.0001) = false /\ (-0.05 <? 0.0) = true /\
  (speed (fst (velocityCommands d 0.0 (-0.05))) <? 0.0) = true.
Proof.
  intros d.
  exact (conj eq_refl
           (conj eq_refl
              (conj eq_refl
                 (proj2 (pivot_follows_angular_rate d 0.0 (-0.05)
                           eq_refl eq_refl eq_refl) eq_refl)))).
Defined.

(** ** The order of binary64 numbers, and what truncation returns *)

Module OrderFacts.

Local Open Scope Z_scope.

Lemma valid_exponent (s : bool) (m : positive) (e : Z) :
  valid_binary (S754_finite s m e) = true -> -1074 <= e.
Proof.
  unfold valid_binary, bounded, canonical_mantissa, fexp, SpecFloat.emin.
  intros H. apply andb_prop in H as [H _]. apply Z.eqb_eq in H.
  unfold prec, emax in H. lia.
Qed.

Lemma valid_any_sign (s s' : bool) (m : positive) (e : Z) :
  valid_binary (S754_finite s m e) = true ->
  valid_binary (S754_finite s' m e) = true.
Proof. exact (fun H => H). Qed.

(** Two valid positive numbers compare like their magnitudes scaled to
    integers. *)
Lemma SFcompare_positive (m1 m2 : positive) (e1 e2 : Z) :
  valid_binary (S754_finite false m1 e1) = true ->
  valid_binary (S754_finite false m2 e2) = true ->
  SFcompare (S754_finite false m1 e1) (S754_finite false m2 e2)
  = Some (Zpos m1 * 2 ^ (e1 + 1074) ?= Zpos m2 * 2 ^ (e2 + 1074)).
Proof.
  intros V1 V2.
  pose proof (TruncFacts.valid_mantissa_bound _ _ _ V1) as B1.
  pose proof (TruncFacts.valid_mantissa_bound _ _ _ V2) as B2.
  pose proof (valid_exponent _ _ _ V1) as E1.
  pose proof (valid_exponent _ _ _ V2) as E2.
  pose proof (MinSpeedFacts.valid_normal_mantissa _ _ _ V1) as N1.
  pose proof (MinSpeedFacts.valid_normal_mantissa _ _ _ V2) as N2.
  assert (T : 2 ^ 53 = 2 * 2 ^ 52) by reflexivity.
  assert (T0 : 0 < 2 ^ 52) by reflexivity.
  unfold SFcompare. f_equal.
  destruct (Z.compare_spec e1 e2) as [E|L|G].
  - subst e2.
    change (PosDef.Pos.compare_cont Eq m1 m2) with (Zpos m1 ?= Zpos m2).
    assert (0 < 2 ^ (e1 + 1074)) by (apply Z.pow_pos_nonneg; lia).
    remember (2 ^ (e1 + 1074)) as A.
    destruct (Z.compare_spec (Zpos m1) (Zpos m2)) as [C|C|C]; symmetry.
    + apply Z.compare_eq_iff. now rewrite C.
    + apply Z.compare_lt_iff. nia.
    + apply Z.compare_gt_iff. nia.
  - symmetry. apply Z.compare_lt_iff.
    replace (e2 + 1074) with ((e1 + 1074) + (e2 - e1)) by lia.
    rewrite (Z.pow_add_r 2 (e1 + 1074) (e2 - e1)) by lia.
    assert (0 < 2 ^ (e1 + 1074)) by (apply Z.pow_pos_nonneg; lia).
    assert (2 ^ 1 <= 2 ^ (e2 - e1)) by (apply Z.pow_le_mono_r; lia).
    change (2 ^ 1) with 2 in *.
    specialize (N2 ltac:(lia)).
    remember (2 ^ (e1 + 1074)) as A. remember (2 ^ (e2 - e1)) as D.
    remember (2 ^ 52) as K.
    assert (S1 : Zpos m1 * A < 2 * K * A) by nia.
    assert (S2 : 2 * K * A <= 2 * Zpos m2 * A) by nia.
    assert (S3 : 2 * (Zpos m2 * A) <= D * (Zpos m2 * A))
      by (apply Z.mul_le_mono_nonneg_r; nia).
    nia.
  - symmetry. apply Z.compare_gt_iff.
    replace (e1 + 1074) with ((e2 + 1074) + (e1 - e2)) by lia.
    rewrite (Z.pow_add_r 2 (e2 + 1074) (e1 - e2)) by lia.
    assert (0 < 2 ^ (e2 + 1074)) by (apply Z.pow_pos_nonneg; lia).
    assert (2 ^ 1 <= 2 ^ (e1 - e2)) by (apply Z.pow_le_mono_r; lia).
    change (2 ^ 1) with 2 in *.
    specialize (N1 ltac:(lia)).
    remember (2 ^ (e2 + 1074)) as A. remember (2 ^ (e1 - e2)) as D.
    remember (2 ^ 52) as K.
    assert (S1 : Zpos m2 * A < 2 * K * A) by nia.
    assert (S2 : 2 * K * A <= 2 * Zpos m1 * A) by nia.
    assert (S3 : 2 * (Zpos m1 * A) <= D * (Zpos m1 * A))
      by (apply Z.mul_le_mono_nonneg_r; nia).
    nia.
Qed.

Lemma SFcompare_negative (m1 m2 : positive) (e1 e2 : Z) :
  valid_binary (S754_finite true m1 e1) = true ->
  valid_binary (S754_finite true m2 e2) = true ->
  SFcompare (S754_finite true m1 e1) (S754_finite true m2 e2)
  = Some (Zpos m2 * 2 ^ (e2 + 1074) ?= Zpos m1 * 2 ^ (e1 + 1074)).
Proof.
  intros V1 V2.
  transitivity
    (option_map CompOpp
       (SFcompare (S754_finite false m1 e1) (S754_finite false m2 e2))).
  - unfold SFcompare. destruct (e1 ?= e2); reflexivity.
  - rewrite (SFcompare_positive m1 m2 e1 e2 V1 V2).
    unfold option_map. f_equal. symmetry. apply Z.compare_antisym.
Qed.


Lemma exact_int_all : all_near_i16 exact_int = true.
Proof. vm_compute. reflexivity. Qed.

Lemma all_near_i16_spec (P : Z -> bool) :
  all_near_i16 P = true -> forall z, -32769 <= z <= 32768 -> P z = true.
Proof.
  unfold all_near_i16. intros H z Hz. apply (all_from_spec _ _ _ H). lia.
Qed.

Lemma of_int_exact (k : Z) : -32769 <= k <= 32768 -> exact_int k = true.
Proof. exact (all_near_i16_spec exact_int exact_int_all k). Qed.

Lemma scaled_int (m : positive) (e k : Z) :
  -1074 <= e -> e <= 0 -> Zpos m = k * 2 ^ (- e) ->
  Zpos m * 2 ^ (e + 1074) = k * 2 ^ 1074.
Proof.
  intros H1 H2 ->.
  replace 1074 with (- e + (e + 1074)) at 2 by lia.
  rewrite (Z.pow_add_r 2 (- e) (e + 1074)) by lia. ring.
Qed.

(** [(double) k] for a positive [k]. *)
Lemma of_int_positive (k : Z) :
  1 <= k <= 32768 ->
  exists m e,
    Prim2SF (Double.of_int k) = S754_finite false m e /\
    valid_binary (S754_finite false m e) = true /\
    Zpos m * 2 ^ (e + 1074) = k * 2 ^ 1074.
Proof.
  intros Hk.
  pose proof (of_int_exact k ltac:(lia)) as H.
  pose proof (Prim2SF_valid (Double.of_int k)) as V.
  unfold exact_int in H.
  destruct (Prim2SF (Double.of_int k)) as [s|s| |s m e]; try discriminate.
  - apply andb_prop in H as [H _]. apply Z.eqb_eq in H. lia.
  - apply andb_prop in H as [H Hs]. apply andb_prop in H as [He Hm].
    apply Z.leb_le in He. apply Z.eqb_eq in Hm. apply Bool.eqb_prop in Hs.
    assert (Hneg : (k <? 0) = false) by (apply Z.ltb_ge; lia).
    rewrite Hneg in Hs. subst s.
    exists m, e. split; [reflexivity|]. split; [exact V|].
    apply scaled_int; [exact (valid_exponent _ _ _ V)|exact He|].
    rewrite Hm. f_equal. lia.
Qed.

(** [(double) k] for a negative [k]. *)
Lemma of_int_negative (k : Z) :
  -32769 <= k <= -1 ->
  exists m e,
    Prim2SF (Double.of_int k) = S754_finite true m e /\
    valid_binary (S754_finite true m e) = true /\
    Zpos m * 2 ^ (e + 1074) = - k * 2 ^ 1074.
Proof.
  intros Hk.
  pose proof (of_int_exact k ltac:(lia)) as H.
  pose proof (Prim2SF_valid (Double.of_int k)) as V.
  unfold exact_int in H.
  destruct (Prim2SF (Double.of_int k)) as [s|s| |s m e]; try discriminate.
  - apply andb_prop in H as [H _]. apply Z.eqb_eq in H. lia.
  - apply andb_prop in H as [H Hs]. apply andb_prop in H as [He Hm].
    apply Z.leb_le in He. apply Z.eqb_eq in Hm. apply Bool.eqb_prop in Hs.
    assert (Hneg : (k <? 0) = true) by (apply Z.ltb_lt; lia).
    rewrite Hneg in Hs. subst s.
    exists m, e. split; [reflexivity|]. split; [exact V|].
    apply scaled_int; [exact (valid_exponent _ _ _ V)|exact He|].
    rewrite Hm. f_equal. lia.
Qed.

(** The integer part brackets the magnitude. *)
Lemma trunc_scaled (m : positive) (e : Z) :
  -1074 <= e ->
  Z.shiftl (Zpos m) e * 2 ^ 1074 <= Zpos m * 2 ^ (e + 1074)
  /\ Zpos m * 2 ^ (e + 1074) < (Z.shiftl (Zpos m) e + 1) * 2 ^ 1074.
Proof.
  intros He.
  destruct (Z.le_gt_cases 0 e) as [H0|H0].
  - rewrite Z.shiftl_mul_pow2 by lia.
    rewrite (Z.pow_add_r 2 e 1074) by lia.
    assert (P0 : 0 < 2 ^ 1074) by (apply Z.pow_pos_nonneg; lia).
    assert (Q0 : 0 < 2 ^ e) by (apply Z.pow_pos_nonneg; lia).
    generalize dependent (2 ^ 1074). intros P P0.
    generalize dependent (2 ^ e). intros Q Q0.
    split; nia.
  - assert (Hs : Z.shiftl (Zpos m) e = Zpos m / 2 ^ (- e)).
    { rewrite <- (Z.opp_involutive e) at 1.
      rewrite Z.shiftl_opp_r, Z.shiftr_div_pow2 by lia. reflexivity. }
    assert (HP : 2 ^ 1074 = 2 ^ (- e) * 2 ^ (e + 1074)).
    { rewrite <- Z.pow_add_r by lia. f_equal. lia. }
    rewrite Hs, HP.
    assert (D0 : 0 < 2 ^ (- e)) by (apply Z.pow_pos_nonneg; lia).
    assert (S0 : 0 < 2 ^ (e + 1074)) by (apply Z.pow_pos_nonneg; lia).
    pose proof (Z.div_mod (Zpos m) (2 ^ (- e)) ltac:(lia)) as Hdm.
    pose proof (Z.mod_pos_bound (Zpos m) (2 ^ (- e)) D0) as Hmod.
    clear Hs HP.
    generalize dependent (2 ^ (e + 1074)). intros S S0.
    generalize dependent (2 ^ (- e)). intros D D0 Hdm Hmod.
    generalize dependent (Zpos m mod D). generalize dependent (Zpos m / D).
    intros q r Hdm Hmod.
    assert (A1 : q * D <= Zpos m) by lia.
    assert (A2 : Zpos m < (q + 1) * D) by lia.
    split; nia.
Qed.

Lemma brackets_positive (m : positive) (e : Z) :
  valid_binary (S754_finite false m e) = true ->
  0 <= Z.shiftl (Zpos m) e <= 32767 ->
  SFleb (Prim2SF (Double.of_int (Z.shiftl (Zpos m) e)))
    (S754_finite false m e) = true /\
  SFltb (S754_finite false m e)
    (Prim2SF (Double.of_int (Z.shiftl (Zpos m) e + 1))) = true.
Proof.
  intros V Hz.
  destruct (trunc_scaled m e (valid_exponent _ _ _ V)) as [Hlo Hhi].
  remember (Z.shiftl (Zpos m) e) as z.
  split.
  - destruct (Z.eq_dec z 0) as [->|Hnz]; [reflexivity|].
    destruct (of_int_positive z ltac:(lia)) as (mk & ek & -> & Vk & Hk).
    unfold SFleb. rewrite (SFcompare_positive _ _ _ _ Vk V), Hk.
    destruct (Z.compare_spec (z * 2 ^ 1074) (Zpos m * 2 ^ (e + 1074)));
      [reflexivity|reflexivity|lia].
  - destruct (of_int_positive (z + 1) ltac:(lia)) as (mk & ek & -> & Vk & Hk).
    unfold SFltb. rewrite (SFcompare_positive _ _ _ _ V Vk), Hk.
    destruct (Z.compare_spec (Zpos m * 2 ^ (e + 1074)) ((z + 1) * 2 ^ 1074));
      [lia|reflexivity|lia].
Qed.

Lemma brackets_negative (m : positive) (e : Z) :
  valid_binary (S754_finite true m e) = true ->
  0 <= Z.shiftl (Zpos m) e <= 32768 ->
  SFltb (Prim2SF (Double.of_int (- Z.shiftl (Zpos m) e - 1)))
    (S754_finite true m e) = true /\
  SFleb (S754_finite true m e)
    (Prim2SF (Double.of_int (- Z.shiftl (Zpos m) e))) = true.
Proof.
  intros V Hz.
  destruct (trunc_scaled m e (valid_exponent _ _ _ V)) as [Hlo Hhi].
  remember (Z.shiftl (Zpos m) e) as z.
  split.
  - destruct (of_int_negative (- z - 1) ltac:(lia)) as (mk & ek & -> & Vk & Hk).
    unfold SFltb. rewrite (SFcompare_negative _ _ _ _ Vk V), Hk.
    destruct (Z.compare_spec (Zpos m * 2 ^ (e + 1074))
                (- (- z - 1) * 2 ^ 1074));
      [lia|reflexivity|lia].
  - destruct (Z.eq_dec z 0) as [->|Hnz]; [reflexivity|].
    destruct (of_int_negative (- z) ltac:(lia)) as (mk & ek & -> & Vk & Hk).
    unfold SFleb. rewrite (SFcompare_negative _ _ _ _ V Vk), Hk.
    destruct (Z.compare_spec (- - z * 2 ^ 1074) (Zpos m * 2 ^ (e + 1074)));
      [reflexivity|reflexivity|lia].
Qed.

End OrderFacts.

(** The integer part of a double is the integer next to it on the side
    of zero: [(double) z <= v < (double) (z + 1)] for a non-negative
    [v], [(double) (z - 1) < v <= (double) z] for a non-positive one. *)
Lemma trunc_brackets (v : float) (z : Z) :
  Double.trunc v = Some z -> CInt.is_i16 z ->
  ((0.0 <=? v) = true ->
   (Double.of_int z <=? v) = true /\ (v <? Double.of_int (z + 1)) = true) /\
  ((v <=? 0.0) = true ->
   (Double.of_int (z - 1) <? v) = true /\ (v <=? Double.of_int z) = true).
Proof.
  unfold Double.trunc, CInt.is_i16, CInt.SHRT_MIN, CInt.SHRT_MAX.
  rewrite !leb_spec, !ltb_spec.
  change (Prim2SF 0.0) with (S754_zero false).
  pose proof (Prim2SF_valid v) as V.
  destruct (Prim2SF v) as [s|s| |s m e]; try discriminate.
  - intros [= <-] _. split; intros _; split; reflexivity.
  - intros [= <-] Hr.
    pose proof (Z.shiftl_nonneg (Zpos m) e) as Hnn.
    destruct s; unfold cond_Zopp in *.
    + split; intros H; [discriminate H|].
      apply OrderFacts.brackets_negative; [exact V|lia].
    + split; intros H; [|discriminate H].
      apply OrderFacts.brackets_positive; [exact V|lia].
Qed.

Lemma not_nan_has_a_side (v : float) :
  is_nan v = false -> (0.0 <=? v) = true \/ (v <=? 0.0) = true.
Proof.
  intros H. apply BoundFacts.is_nan_false in H. revert H.
  rewrite !leb_spec. change (Prim2SF 0.0) with (S754_zero false).
  destruct (Prim2SF v) as [s|s| |s m e]; try congruence; intros _;
    destruct s; auto.
Qed.

(** C7 (as the code has it): [bound] returns 32767 for every value above
    32767 and -32768 for every value below -32768 (so
    [bound 40000.0 = 32767] and [bound (-40000.0) = -32768]).  For every
    other value that is not NaN it returns the value truncated toward
    zero, a 16-bit signed integer [z]: [(double) z <= v < (double) (z+1)]
    when [v >= 0] and [(double) (z-1) < v <= (double) z] when [v <= 0].
    For NaN neither test holds and the conversion is undefined.  The
    firmware command read back is [bound] of the stored speed paired with
    [bound] of the stored radius, defined whenever neither is NaN. *)
Theorem bound_saturates_then_truncates :
  (forall v : float,
     ((32767.0 <? v) = true -> bound v = Some 32767%Z) /\
     ((v <? -32768.0) = true -> bound v = Some (-32768)%Z) /\
     (is_nan v = true -> bound v = None) /\
     (is_nan v = false ->
      (32767.0 <? v) = false -> (v <? -32768.0) = false ->
      exists z : Z,
        bound v = Some z /\ CInt.is_i16 z /\
        ((0.0 <=? v) = true \/ (v <=? 0.0) = true) /\
        ((0.0 <=? v) = true ->
         (Double.of_int z <=? v) = true /\
         (v <? Double.of_int (z + 1)) = true) /\
        ((v <=? 0.0) = true ->
         (Double.of_int (z - 1) <? v) = true /\
         (v <=? Double.of_int z) = true)))
  /\ bound 40000.0 = Some 32767%Z
  /\ bound (-40000.0) = Some (-32768)%Z
  /\ (forall (d : DiffDrive) (s r : Z),
        velocityCommands_get d = Some (s, r) <->
        bound (speed d) = Some s /\ bound (radius d) = Some r)
  /\ (forall d : DiffDrive,
        is_nan (speed d) = false -> is_nan (radius d) = false ->
        exists s r : Z,
          velocityCommands_get d = Some (s, r) /\
          CInt.is_i16 s /\ CInt.is_i16 r).
Proof.
  split; [|split; [reflexivity|split; [reflexivity|split]]].
  - intros v. rewrite bound_cases. split; [|split; [|split]].
    + intros ->. reflexivity.
    + intros H. rewrite (below_min_not_above_max v H), H. reflexivity.
    + intros H. rewrite <- bound_cases. now apply NanFacts.bound_nan.
    + intros Hnan Hhi Hlo. rewrite Hhi, Hlo.
      destruct (BoundFacts.trunc_in_range v Hnan Hhi Hlo) as (z & Hz & Hr).
      exists z. split.
      { unfold Double.to_short. rewrite Hz. destruct Hr as [H1 H2].
        apply Z.leb_le in H1, H2. now rewrite H1, H2. }
      split; [exact Hr|]. split; [now apply not_nan_has_a_side|].
      exact (trunc_brackets v z Hz Hr).
  - intros d s r. unfold velocityCommands_get.
    destruct (bound (speed d)) as [s'|]; destruct (bound (radius d)) as [r'|];
      split; try discriminate; try (intros [H1 H2]; discriminate).
    + intros [= <- <-]. auto.
    + intros [[= <-] [= <-]]. reflexivity.
  - intros d Hs Hr. unfold velocityCommands_get.
    destruct (BoundSpec.bound_defined _ Hs) as [s Es].
    destruct (BoundSpec.bound_defined _ Hr) as [r Er].
    rewrite Es, Er. exists s, r. split; [reflexivity|].
    split; eapply BoundSpec.bound_range; eassumption.
Qed.

Lemma bound_saturates_then_truncates_witness :
  is_nan (-1.9) = false /\
  (32767.0 <? -1.9) = false /\ (-1.9 <? -32768.0) = false /\
  (-1.9 <=? 0.0) = true /\
  bound (-1.9) = Some (-1)%Z /\
  (Double.of_int (-1 - 1) <? -1.9) = true /\
  (-1.9 <=? Double.of_int (-1)) = true.
Proof.
  destruct (proj1 bound_saturates_then_truncates (-1.9))
    as (_ & _ & _ & H).
  destruct (H eq_refl eq_refl eq_refl) as (z & Hb & _ & _ & _ & Hneg).
  assert (Ez : z = (-1)%Z)
    by (change (bound (-1.9)) with (Some (-1)%Z) in Hb; congruence).
  subst z.
  exact (conj eq_refl (conj eq_refl (conj eq_refl (conj eq_refl
           (conj Hb (Hneg eq_refl)))))).
Defined.

(** C7 fails on the code at NaN: neither saturation test holds, and the
    conversion that follows yields no 16-bit integer (it is undefined). *)
Lemma bound_nan_returns_no_short :
  (32767.0 <? nan) = false /\ (nan <? -32768.0) = false /\
  ~ bound_returns_short nan.
Proof.
  split; [reflexivity|]. split; [reflexivity|].
  intros (z & H & _). discriminate H.
Qed.

(** ** Reading a translated command back *)

Lemma signed_not_nan (x : float) (s : bool) :
  signed_nonzero (Prim2SF x) s -> is_nan x = false.
Proof.
  intros H. destruct (is_nan x) eqn:E; [|reflexivity].
  apply NanFacts.is_nan_spec in E. rewrite E in H.
  destruct H as [H|(m & e & H)]; discriminate H.
Qed.

Lemma not_straight_signed (wz : float) :
  (abs wz <? 0.0001) = false -> is_nan wz = false ->
  exists s : bool, signed_nonzero (Prim2SF wz) s.
Proof.
  intros Hband Hnan. apply BoundFacts.is_nan_false in Hnan.
  revert Hband. rewrite ltb_spec, abs_spec.
  change (Prim2SF 0.0001)
    with (S754_finite false 7378697629483821 (-66)).
  unfold signed_nonzero.
  destruct (Prim2SF wz) as [s|s| |s m e]; try congruence.
  - discriminate.
  - eauto.
  - eauto.
Qed.

Lemma min_speed_not_nan (s : float) :
  is_nan s = false -> is_nan (min_speed s) = false.
Proof.
  intros H. unfold min_speed.
  destruct (abs s <? 50.0); [|exact H].
  destruct (0.0 <? s); reflexivity.
Qed.

(** X10: after the pivot branch the stored speed is never below 50 mm/s
    in magnitude.  If it is NaN, reading the firmware command back is
    undefined; otherwise the read-back is defined, its radius is the
    sentinel 1 and its speed is of magnitude at least 50.  With the
    constructor's tread width 0.485 and an angular rate that is not NaN,
    the stored speed is not NaN. *)
Theorem pivot_speed_at_least_minimum (d : DiffDrive) (vx wz : float) :
  (abs wz <? 0.0001) = false ->
  (abs (dead_zone vx) <? 0.0001)
  || (abs (dead_zone vx * 1000.0 / wz) <=? 1.0) = true ->
  let d' := fst (velocityCommands d vx wz) in
  (abs (speed d') <? 50.0) = false /\
  (is_nan (speed d') = true -> velocityCommands_get d' = None) /\
  (is_nan (speed d') = false ->
   exists s : Z,
     velocityCommands_get d' = Some (s, 1%Z) /\ (50 <= Z.abs s)%Z) /\
  (bias d = 0.485 -> is_nan wz = false -> is_nan (speed d') = false).
Proof.
  intros Hs Hp d'. subst d'.
  rewrite (velocityCommands_pivot_eq d vx wz Hs Hp).
  cbn [fst]. unfold velocityCommands_get. cbn [set_command speed radius].
  pose proof (MinSpeedFacts.min_speed_not_below
                (1000.0 * bias d * wz / 2.0)) as Hm.
  split; [exact Hm|]. split; [|split].
  - intros Hn. now rewrite (NanFacts.bound_nan _ Hn).
  - intros Hn.
    destruct (BoundSpec.bound_defined _ Hn) as [s Hb].
    rewrite Hb. change (bound 1.0) with (Some 1%Z).
    exists s. split; [reflexivity|].
    exact (bound_at_least_50 _ _ Hm Hb).
  - intros Hb Hn. rewrite Hb.
    change (1000.0 * 0.485) with 485.0.
    destruct (not_straight_signed wz Hs Hn) as [s Hw].
    apply min_speed_not_nan.
    apply (signed_not_nan _ s).
    now apply PivotFacts.raw_pivot_speed_sign.
Qed.

Lemma pivot_speed_at_least_minimum_witness :
  let d' := fst (velocityCommands (DiffDrive_ctor 0 0.0) 0.0 0.5) in
  (abs 0.5 <? 0.0001) = false /\
  is_nan (speed d') = false /\
  velocityCommands_get d' = Some (121%Z, 1%Z) /\
  (50 <= Z.abs 121)%Z.
Proof.
  intros d'.
  destruct (pivot_speed_at_least_minimum (DiffDrive_ctor 0 0.0) 0.0 0.5
              eq_refl eq_refl) as (_ & _ & H & Hn).
  destruct (H (Hn eq_refl eq_refl)) as (s & Hg & Hs).
  assert (Es : s = 121%Z)
    by (change (velocityCommands_get
                  (fst (velocityCommands (DiffDrive_ctor 0 0.0) 0.0 0.5)))
          with (Some (121%Z, 1%Z)) in Hg; congruence).
  subst s.
  exact (conj eq_refl (conj (Hn eq_refl eq_refl) (conj Hg Hs))).
Defined.

(** X21: reading the command of a general turn back.  If the stored
    speed or the stored radius is NaN the read-back is undefined;
    otherwise it is defined and its radius is never the straight-line
    sentinel 0.  It can be the pivot sentinel 1: the truncation maps
    every stored radius between 1 and 2 to it, as for vx = 0.15 and
    wz = 100 on a constructed object, where the stored radius is 1.5. *)
Theorem general_turn_radius_read_back :
  (forall (d : DiffDrive) (vx wz : float),
     (abs wz <? 0.0001) = false ->
     (abs (dead_zone vx) <? 0.0001)
     || (abs (dead_zone vx * 1000.0 / wz) <=? 1.0) = false ->
     let d' := fst (velocityCommands d vx wz) in
     (is_nan (speed d') = true \/ is_nan (radius d') = true ->
      velocityCommands_get d' = None) /\
     (is_nan (speed d') = false -> is_nan (radius d') = false ->
      exists s r : Z,
        velocityCommands_get d' = Some (s, r) /\ r <> 0%Z)) /\
  (forall (ts : Z) (dt : float),
     let d' := fst (velocityCommands (DiffDrive_ctor ts dt) 0.15 100.0) in
     (abs 100.0 <? 0.0001) = false /\
     (abs (dead_zone 0.15) <? 0.0001)
     || (abs (dead_zone 0.15 * 1000.0 / 100.0) <=? 1.0) = false /\
     radius d' = 1.5 /\
     velocityCommands_get d' = Some (24400%Z, 1%Z)).
Proof.
  split.
  - intros d vx wz Hs Hp d'. subst d'.
    pose proof (velocityCommands_turn_eq d vx wz Hs Hp) as E.
    cbv zeta in E. rewrite E. cbn [fst].
    unfold velocityCommands_get. cbn [set_command speed radius].
    apply orb_false_elim in Hp as [_ Hr].
    split.
    + intros [Hn|Hn].
      * now rewrite (NanFacts.bound_nan _ Hn).
      * rewrite (NanFacts.bound_nan _ Hn).
        match goal with
        | |- context [bound ?x] => destruct (bound x)
        end; reflexivity.
    + intros Hn1 Hn2.
      destruct (BoundSpec.bound_defined _ Hn1) as [s Hb1].
      destruct (BoundSpec.bound_defined _ Hn2) as [r Hb2].
      rewrite Hb1, Hb2. exists s, r. split; [reflexivity|].
      pose proof (bound_at_least_1 _ _ Hr Hb2). lia.
  - intros ts dt. repeat split; reflexivity.
Qed.

Lemma general_turn_radius_read_back_witness :
  let d' := fst (velocityCommands (DiffDrive_ctor 0 0.0) 0.5 0.3) in
  (abs 0.3 <? 0.0001) = false /\
  is_nan (speed d') = false /\ is_nan (radius d') = false /\
  velocityCommands_get d' = Some (572%Z, 1666%Z) /\ 1666%Z <> 0%Z.
Proof.
  intros d'.
  destruct (proj1 general_turn_radius_read_back (DiffDrive_ctor 0 0.0)
              0.5 0.3 eq_refl eq_refl) as [_ H].
  destruct (H eq_refl eq_refl) as (s & r & Hg & Hr).
  assert (Er : r = 1666%Z /\ s = 572%Z).
  { change (velocityCommands_get
              (fst (velocityCommands (DiffDrive_ctor 0 0.0) 0.5 0.3)))
      with (Some (572%Z, 1666%Z)) in Hg.
    split; congruence. }
  destruct Er as [-> ->].
  exact (conj eq_refl (conj eq_refl (conj eq_refl (conj Hg Hr)))).
Defined.
